(** * jax-reactor: the BDF solver of [jax_reactor/solver/bdf.py]

    A shallow embedding of the step controller ([maybe_step]), the step
    driver ([step]), the output driver ([advance_to_solution_time]) and the
    coefficient table ([_get_coefficients]) of the class [BDF], with the
    properties of the design document proved about them.

    The solver works on float64 scalars and arrays.  The embedding is
    written over a scalar interface ([Scalar]) that offers exactly the
    operations the source applies to a float; binary64 ([Float64.scalar])
    is one instance and the rationals ([Exact.scalar]) another.  The helpers of
    [bdf_util] (the Newton corrector, the QR factorisation, the error norm
    and the like) are collaborators of the solver and are taken as a record
    of functions ([bdf_util.t]). *)

From Stdlib Require Import ZArith Lia Bool List.
From Stdlib Require Import PrimFloat Uint63 QArith Qabs Lqa.
From stdpp Require Import base list.

Local Open Scope Z_scope.

(** ** Scalars *)

(** The operations of the source on a float64 value.  [flt a b] is [a < b];
    the source's [a > b] is [flt b a]. *)
Class Scalar : Type := {
  F : Type;
  fzero : F;
  fone : F;
  fnan : F;
  fadd : F -> F -> F;
  fsub : F -> F -> F;
  fmul : F -> F -> F;
  fdiv : F -> F -> F;
  fabs : F -> F;
  flt : F -> F -> bool;
  of_int : Z -> F;
  norm : list F -> F
}.

Declare Scope scalar_scope.
Delimit Scope scalar_scope with F.
Infix "+" := fadd : scalar_scope.
Infix "-" := fsub : scalar_scope.
Infix "*" := fmul : scalar_scope.
Infix "/" := fdiv : scalar_scope.
Infix "<?" := flt : scalar_scope.
Notation "a >? b" := (flt b a) : scalar_scope.

(** ** 64-bit integers

    With [jax_enable_x64] the counters, the order and the status are int64
    values: addition wraps around. *)
Module Int64.

Definition min_int : Z := - 2 ^ 63.
Definition max_int : Z := 2 ^ 63 - 1.
Definition wrap (z : Z) : Z := (z + 2 ^ 63) mod 2 ^ 64 - 2 ^ 63.
Definition add (a b : Z) : Z := wrap (a + b).

(** [np.clip(a, a_min, a_max)] is [minimum(a_max, maximum(a, a_min))]. *)
Definition clip (a a_min a_max : Z) : Z := Z.min a_max (Z.max a a_min).

End Int64.

(** ** Arrays *)

(** Indexing a jax array with a traced integer: a negative index counts from
    the end, and an index out of range is clamped to the nearest valid
    one. *)
Definition jnp_index {A : Type} (d : A) (l : list A) (i : Z) : A :=
  let n := Z.of_nat (length l) in
  let i := if i <? 0 then i + n else i in
  nth (Z.to_nat (Z.max 0 (Z.min i (n - 1)))) l d.

Section Records.
Context {SC : Scalar}.

Definition Vec : Type := list F.
Definition Mat : Type := list (list F).

(** ** The records of the solver *)

Record _BDFDiagnostics : Type := mk_BDFDiagnostics {
  num_jacobian_evaluations : Z;
  num_matrix_factorizations : Z;
  num_ode_fn_evaluations : Z;
  status : Z
}.

Record _BDFIterand : Type := mk_BDFIterand {
  jacobian_mat : Mat;
  jacobian_is_up_to_date : bool;
  new_step_size : F;
  num_steps : Z;
  num_steps_same_size : Z;
  should_update_jacobian : bool;
  should_update_step_size : bool;
  time : F;
  unitary : Mat;
  upper : Mat
}.

Record _BDFSolverInternalState : Type := mk_BDFSolverInternalState {
  backward_differences : Mat;
  order : Z;
  step_size : F
}.

Record Results : Type := mk_Results {
  times : list F;
  states : list Vec;
  diagnostics : _BDFDiagnostics;
  solver_internal_state : _BDFSolverInternalState
}.

Record Coefficients : Type := mk_Coefficients {
  newton_coefficients : list F;
  error_coefficients : list F
}.

(** [max_num_steps], as [maybe_step] compares it with the counter:
    [at_most m] is a budget of [m], and [unbounded] is a value that no
    counter value equals and that passes the conversion
    [np.array(self.max_num_steps, dtype=np.int64)] of
    [_get_common_params_and_coefficients], such as [numpy.float64('inf')].
    The literal default [np.inf] of [__init__] is a Python float, on which
    that conversion raises [OverflowError]: a solver built with the default
    budget does not get as far as [_solve], and is not among the
    configurations modelled. *)
Inductive step_budget : Type :=
| unbounded : step_budget
| at_most : Z -> step_budget.

(** The attributes of a [BDF] object. *)
Record BDF : Type := mk_BDF {
  rtol : F;
  atol : F;
  first_step_size : option F;
  safety_factor : F;
  min_step_size_factor : F;
  max_step_size_factor : F;
  max_num_steps : step_budget;
  max_order : Z;
  max_num_newton_iters : Z;
  newton_tol_factor : F;
  newton_step_size_factor : F;
  bdf_coefficients : list F;
  _evaluate_jacobian_lazily : bool
}.

(** [self] with another value of [max_num_steps]. *)
Definition with_budget (self : BDF) (budget : step_budget) : BDF :=
  mk_BDF (rtol self) (atol self) (first_step_size self) (safety_factor self)
    (min_step_size_factor self) (max_step_size_factor self) budget
    (max_order self) (max_num_newton_iters self) (newton_tol_factor self)
    (newton_step_size_factor self) (bdf_coefficients self)
    (_evaluate_jacobian_lazily self).

(** [self] with another value of [_evaluate_jacobian_lazily]. *)
Definition with_lazy (self : BDF) (lazily : bool) : BDF :=
  mk_BDF (rtol self) (atol self) (first_step_size self) (safety_factor self)
    (min_step_size_factor self) (max_step_size_factor self)
    (max_num_steps self) (max_order self) (max_num_newton_iters self)
    (newton_tol_factor self) (newton_step_size_factor self)
    (bdf_coefficients self) lazily.

(** The result of [bdf_util.newton]. *)
Record NewtonResult : Type := mk_NewtonResult {
  newton_converged : bool;
  next_backward_difference : Vec;
  next_state_vec : Vec;
  newton_num_iters : Z
}.

(** The arguments of [_solve]. *)
Record Problem : Type := mk_Problem {
  ode_fn_vec : F -> Vec -> Vec;
  jacobian_fn : F -> Vec -> Mat;
  initial_time : F;
  initial_state_vec : Vec;
  solution_times : list F
}.

End Records.

(** ** The module [bdf_util]

    Its constants and functions, with the arguments the solver passes to
    them. *)
Module bdf_util.
Section Interface.
Context {SC : Scalar}.

Record t : Type := mk {
  MAX_ORDER : Z;
  ORDERS : list Z;
  RECIPROCAL_SUMS : list F;
  interpolate_backward_differences : Mat -> Z -> F -> Mat;
  update_backward_differences : Mat -> Vec -> Vec -> Z -> Mat;
  newton_qr : Mat -> F -> F -> Mat * Mat;
  newton :
    Mat -> Z -> F -> (F -> Vec -> Vec) -> Z -> F -> F -> F -> Mat -> Mat ->
    NewtonResult;
  error_ratio : Vec -> F -> Vec -> F;
  next_step_size : F -> Z -> F -> F -> F -> F -> F;
  first_step_size : F -> F -> Vec -> F -> (F -> Vec -> Vec) -> F -> F -> F
}.

End Interface.
End bdf_util.

(** ** [jax.lax.while_loop]

    [while cond_fun(val): val = body_fun(val)], cut off after [fuel]
    iterations: [None] says that the fuel ran out, never that the loop
    ended.

    This is the loop as it runs.  [jax] also traces [body_fun] once before
    the first turn, whether or not a turn is made, and an error raised
    while tracing ends the call: in [_solve] the body reads
    [solution_times[n]], which cannot be traced on an empty array, so that
    the source raises [IndexError] when no time is requested, where this
    loop makes no turn.  What is proved of [_solve] is about the runs with
    at least one requested time. *)
Fixpoint while_loop {A : Type} (fuel : nat) (cond_fun : A -> bool)
    (body_fun : A -> option A) (init_val : A) : option A :=
  if cond_fun init_val then
    match fuel with
    | O => None
    | S fuel' =>
        match body_fun init_val with
        | Some val => while_loop fuel' cond_fun body_fun val
        | None => None
        end
    end
  else Some init_val.

(** ** The coefficient table *)

Section CoefficientTable.
Context {SC : Scalar} (U : bdf_util.t).
Local Open Scope scalar_scope.

(** [_get_coefficients]: the arithmetic is elementwise over arrays of one
    shape, [(MAX_ORDER + 1,)]. *)
Definition _get_coefficients (bdf_coefficients : list F) : list F * list F :=
  let newton_coefficients :=
    map (fun x => fone / x)
      (zip_with fmul (map (fun b => fone - b) bdf_coefficients)
         (bdf_util.RECIPROCAL_SUMS U)) in
  let error_coefficients :=
    zip_with fadd
      (zip_with fmul bdf_coefficients (bdf_util.RECIPROCAL_SUMS U))
      (map (fun k => fone / of_int (Int64.add k 1)) (bdf_util.ORDERS U)) in
  (newton_coefficients, error_coefficients).

End CoefficientTable.

(** ** The step controller and the drivers *)

Section Solver.
Context {SC : Scalar} (U : bdf_util.t) (self : BDF) (prob : Problem)
  (e : Coefficients).
Local Open Scope scalar_scope.

(** [np.equal(num_steps, self.max_num_steps)]. *)
Definition budget_reached (n : Z) (b : step_budget) : bool :=
  match b with
  | unbounded => false
  | at_most m => (n =? m)%Z
  end.

(** [atol + rtol * np.abs(backward_differences[0])]. *)
Definition tolerance (backward_differences : Mat) : Vec :=
  map (fun y => atol self + rtol self * fabs y)
    (jnp_index [] backward_differences 0).

(** One turn of the loop [for offset in [-1, +1]] of [maybe_step]; the pair
    is [(new_order, new_error_ratio)]. *)
Definition order_scan (should_update_order_and_step_size : bool)
    (backward_differences : Mat) (tol : Vec) (order : Z)
    (acc : Z * F) (offset : Z) : Z * F :=
  let '(new_order, new_error_ratio) := acc in
  let proposed_order :=
    Int64.clip (Int64.add order offset) 1 (max_order self) in
  let proposed_error_ratio :=
    bdf_util.error_ratio U
      (jnp_index [] backward_differences (Int64.add proposed_order 1))
      (jnp_index fzero (error_coefficients e) proposed_order) tol in
  let proposed_error_ratio_is_lower :=
    proposed_error_ratio <? new_error_ratio in
  let new_order :=
    if should_update_order_and_step_size && proposed_error_ratio_is_lower
    then proposed_order else new_order in
  let new_error_ratio :=
    if should_update_order_and_step_size && proposed_error_ratio_is_lower
    then proposed_error_ratio else new_error_ratio in
  (new_order, new_error_ratio).

Definition maybe_step
    (_states : bool * _BDFDiagnostics * _BDFIterand * _BDFSolverInternalState)
  : bool * _BDFDiagnostics * _BDFIterand * _BDFSolverInternalState :=
  let '(accepted, diagnostics, iterand, solver_internal_state) := _states in
  let 'mk_BDFDiagnostics num_jacobian_evaluations num_matrix_factorizations
        num_ode_fn_evaluations status := diagnostics in
  let 'mk_BDFIterand jacobian_mat jacobian_is_up_to_date new_step_size
        num_steps num_steps_same_size should_update_jacobian
        should_update_step_size time unitary upper := iterand in
  let 'mk_BDFSolverInternalState backward_differences order step_size :=
    solver_internal_state in
  let status :=
    if budget_reached num_steps (max_num_steps self) then (-1)%Z else 0%Z in
  let backward_differences :=
    if should_update_step_size
    then bdf_util.interpolate_backward_differences U backward_differences
           order (new_step_size / step_size)
    else backward_differences in
  let step_size := if should_update_step_size then new_step_size else step_size in
  let num_steps_same_size :=
    if should_update_step_size then 0%Z else num_steps_same_size in
  let '(unitary, upper) :=
    bdf_util.newton_qr U jacobian_mat
      (jnp_index fzero (newton_coefficients e) order) step_size in
  let num_matrix_factorizations := Int64.add num_matrix_factorizations 1 in
  let tol := tolerance backward_differences in
  let newton_tol := newton_tol_factor self * norm tol in
  let 'mk_NewtonResult newton_converged next_backward_difference
        next_state_vec newton_num_iters :=
    bdf_util.newton U backward_differences (max_num_newton_iters self)
      (jnp_index fzero (newton_coefficients e) order) (ode_fn_vec prob)
      order step_size time newton_tol unitary upper in
  let num_steps := Int64.add num_steps 1 in
  let num_ode_fn_evaluations :=
    Int64.add num_ode_fn_evaluations newton_num_iters in
  let newton_failed := negb newton_converged in
  let should_update_step_size := newton_failed && jacobian_is_up_to_date in
  let new_step_size :=
    step_size *
    (if should_update_step_size then newton_step_size_factor self else fone) in
  let should_update_jacobian :=
    newton_failed && negb jacobian_is_up_to_date in
  let error_ratio :=
    if newton_converged
    then bdf_util.error_ratio U next_backward_difference
           (jnp_index fzero (error_coefficients e) order) tol
    else fnan in
  let accepted := error_ratio <? fone in
  let converged_and_rejected := newton_converged && negb accepted in
  let new_step_size :=
    if converged_and_rejected
    then bdf_util.next_step_size U step_size order error_ratio
           (safety_factor self) (min_step_size_factor self)
           (max_step_size_factor self)
    else new_step_size in
  let should_update_step_size :=
    should_update_step_size || converged_and_rejected in
  let time := if accepted then time + step_size else time in
  let backward_differences :=
    if accepted
    then bdf_util.update_backward_differences U backward_differences
           next_backward_difference next_state_vec order
    else backward_differences in
  let jacobian_is_up_to_date := jacobian_is_up_to_date && negb accepted in
  let num_steps_same_size :=
    if accepted then Int64.add num_steps_same_size 1
    else num_steps_same_size in
  let should_update_order_and_step_size :=
    accepted && (Int64.add order 1 <? num_steps_same_size)%Z in
  let '(new_order, new_error_ratio) :=
    fold_left
      (order_scan should_update_order_and_step_size backward_differences
         tol order)
      [(-1)%Z; 1%Z] (order, error_ratio) in
  let order := new_order in
  let error_ratio := new_error_ratio in
  let new_step_size :=
    if should_update_order_and_step_size
    then bdf_util.next_step_size U step_size order error_ratio
           (safety_factor self) (min_step_size_factor self)
           (max_step_size_factor self)
    else new_step_size in
  let should_update_step_size :=
    should_update_step_size || should_update_order_and_step_size in
  (accepted,
   mk_BDFDiagnostics num_jacobian_evaluations num_matrix_factorizations
     num_ode_fn_evaluations status,
   mk_BDFIterand jacobian_mat jacobian_is_up_to_date new_step_size num_steps
     num_steps_same_size should_update_jacobian should_update_step_size
     time unitary upper,
   mk_BDFSolverInternalState backward_differences order step_size).

(** *** The values of one attempt

    The values [maybe_step] computes on its way, as functions of the
    iterand and the internal state it is given; the properties of an attempt
    are stated over them. *)

(** The history after the interpolation to a pending step size. *)
Definition attempt_backward_differences (iterand : _BDFIterand)
    (solver_internal_state : _BDFSolverInternalState) : Mat :=
  if should_update_step_size iterand
  then bdf_util.interpolate_backward_differences U
         (backward_differences solver_internal_state)
         (order solver_internal_state)
         (new_step_size iterand / step_size solver_internal_state)
  else backward_differences solver_internal_state.

(** The step size the attempt is made with. *)
Definition attempt_step_size (iterand : _BDFIterand)
    (solver_internal_state : _BDFSolverInternalState) : F :=
  if should_update_step_size iterand then new_step_size iterand
  else step_size solver_internal_state.

Definition attempt_tol (iterand : _BDFIterand)
    (solver_internal_state : _BDFSolverInternalState) : Vec :=
  tolerance (attempt_backward_differences iterand solver_internal_state).

Definition attempt_factorization (iterand : _BDFIterand)
    (solver_internal_state : _BDFSolverInternalState) : Mat * Mat :=
  bdf_util.newton_qr U (jacobian_mat iterand)
    (jnp_index fzero (newton_coefficients e) (order solver_internal_state))
    (attempt_step_size iterand solver_internal_state).

(** The result of the Newton corrector. *)
Definition attempt_newton (iterand : _BDFIterand)
    (solver_internal_state : _BDFSolverInternalState) : NewtonResult :=
  bdf_util.newton U
    (attempt_backward_differences iterand solver_internal_state)
    (max_num_newton_iters self)
    (jnp_index fzero (newton_coefficients e) (order solver_internal_state))
    (ode_fn_vec prob) (order solver_internal_state)
    (attempt_step_size iterand solver_internal_state) (time iterand)
    (newton_tol_factor self * norm (attempt_tol iterand solver_internal_state))
    (attempt_factorization iterand solver_internal_state).1
    (attempt_factorization iterand solver_internal_state).2.

(** The error ratio of the attempt: [nan] when the corrector failed. *)
Definition attempt_error_ratio (iterand : _BDFIterand)
    (solver_internal_state : _BDFSolverInternalState) : F :=
  if newton_converged (attempt_newton iterand solver_internal_state)
  then bdf_util.error_ratio U
         (next_backward_difference
            (attempt_newton iterand solver_internal_state))
         (jnp_index fzero (error_coefficients e)
            (order solver_internal_state))
         (attempt_tol iterand solver_internal_state)
  else fnan.

Definition attempt_accepted (iterand : _BDFIterand)
    (solver_internal_state : _BDFSolverInternalState) : bool :=
  attempt_error_ratio iterand solver_internal_state <? fone.

(** The history after the attempt: updated when it was accepted. *)
Definition attempt_history (iterand : _BDFIterand)
    (solver_internal_state : _BDFSolverInternalState) : Mat :=
  if attempt_accepted iterand solver_internal_state
  then bdf_util.update_backward_differences U
         (attempt_backward_differences iterand solver_internal_state)
         (next_backward_difference
            (attempt_newton iterand solver_internal_state))
         (next_state_vec (attempt_newton iterand solver_internal_state))
         (order solver_internal_state)
  else attempt_backward_differences iterand solver_internal_state.

(** [num_steps_same_size] after the attempt. *)
Definition attempt_same_size (iterand : _BDFIterand)
    (solver_internal_state : _BDFSolverInternalState) : Z :=
  let reset :=
    if should_update_step_size iterand then 0%Z
    else num_steps_same_size iterand in
  if attempt_accepted iterand solver_internal_state
  then Int64.add reset 1 else reset.

(** [should_update_order_and_step_size]. *)
Definition attempt_adapts (iterand : _BDFIterand)
    (solver_internal_state : _BDFSolverInternalState) : bool :=
  attempt_accepted iterand solver_internal_state &&
  (Int64.add (order solver_internal_state) 1
   <? attempt_same_size iterand solver_internal_state)%Z.

(** What the scan proposes for an offset: the clipped order and its error
    ratio on the history after the attempt. *)
Definition proposed_order (solver_internal_state : _BDFSolverInternalState)
    (offset : Z) : Z :=
  Int64.clip (Int64.add (order solver_internal_state) offset) 1
    (max_order self).

Definition proposed_error_ratio (iterand : _BDFIterand)
    (solver_internal_state : _BDFSolverInternalState) (offset : Z) : F :=
  bdf_util.error_ratio U
    (jnp_index [] (attempt_history iterand solver_internal_state)
       (Int64.add (proposed_order solver_internal_state offset) 1))
    (jnp_index fzero (error_coefficients e)
       (proposed_order solver_internal_state offset))
    (attempt_tol iterand solver_internal_state).

(** [(new_order, new_error_ratio)] after the loop over the offsets. *)
Definition attempt_scan (iterand : _BDFIterand)
    (solver_internal_state : _BDFSolverInternalState) : Z * F :=
  fold_left
    (order_scan (attempt_adapts iterand solver_internal_state)
       (attempt_history iterand solver_internal_state)
       (attempt_tol iterand solver_internal_state)
       (order solver_internal_state))
    [(-1)%Z; 1%Z]
    (order solver_internal_state,
     attempt_error_ratio iterand solver_internal_state).

(** The state of the retry loop of [step] and its condition. *)
Definition attempt_state : Type :=
  (bool * _BDFDiagnostics * _BDFIterand * _BDFSolverInternalState)%type.

Definition accepted_of (s : attempt_state) : bool := s.1.1.1.
Definition diagnostics_of (s : attempt_state) : _BDFDiagnostics := s.1.1.2.
Definition iterand_of (s : attempt_state) : _BDFIterand := s.1.2.
Definition internal_state_of (s : attempt_state) : _BDFSolverInternalState :=
  s.2.

(** An attempt state with another status code. *)
Definition with_status (s : attempt_state) (code : Z) : attempt_state :=
  (accepted_of s,
   mk_BDFDiagnostics (num_jacobian_evaluations (diagnostics_of s))
     (num_matrix_factorizations (diagnostics_of s))
     (num_ode_fn_evaluations (diagnostics_of s)) code,
   iterand_of s, internal_state_of s).

Definition maybe_step_cond (_states : attempt_state) : bool :=
  let '(accepted, diagnostics, _, _) := _states in
  negb accepted && (status diagnostics =? 0)%Z.

(** The state of the loop of [advance_to_solution_time]: the target time,
    the solver's records and the two output arrays. *)
Definition step_state : Type :=
  (F * _BDFDiagnostics * _BDFIterand * _BDFSolverInternalState
   * list Vec * list F)%type.

(** The first statements of [step]: the pending step size is cut so that
    the step does not pass [next_time]. *)
Definition clamp_to_next_time (next_time : F) (iterand : _BDFIterand)
  : _BDFIterand :=
  let distance_to_next_time := next_time - time iterand in
  let overstepped := new_step_size iterand >? distance_to_next_time in
  mk_BDFIterand (jacobian_mat iterand) (jacobian_is_up_to_date iterand)
    (if overstepped then distance_to_next_time else new_step_size iterand)
    (num_steps iterand) (num_steps_same_size iterand)
    (should_update_jacobian iterand)
    (overstepped || should_update_step_size iterand)
    (time iterand) (unitary iterand) (upper iterand).

(** The next statements of [step]: the Jacobian and its counter, selected by
    [self._evaluate_jacobian_lazily and jacobian_is_up_to_date]. *)
Definition refresh_jacobian (diagnostics : _BDFDiagnostics)
    (iterand : _BDFIterand) (solver_internal_state : _BDFSolverInternalState)
  : _BDFDiagnostics * _BDFIterand :=
  let jacobian_is_up_to_date := jacobian_is_up_to_date iterand in
  let keep := _evaluate_jacobian_lazily self && jacobian_is_up_to_date in
  let jacobian_mat :=
    if keep then jacobian_mat iterand
    else jacobian_fn prob (time iterand)
           (jnp_index [] (backward_differences solver_internal_state) 0) in
  let num_jacobian_evaluations :=
    if keep then num_jacobian_evaluations diagnostics
    else Int64.add (num_jacobian_evaluations diagnostics) 1 in
  (mk_BDFDiagnostics num_jacobian_evaluations
     (num_matrix_factorizations diagnostics)
     (num_ode_fn_evaluations diagnostics) (status diagnostics),
   mk_BDFIterand jacobian_mat jacobian_is_up_to_date
     (new_step_size iterand) (num_steps iterand)
     (num_steps_same_size iterand) (should_update_jacobian iterand)
     (should_update_step_size iterand) (time iterand) (unitary iterand)
     (upper iterand)).

(** The state in which [step] enters its retry loop. *)
Definition step_entry (_states : step_state) : attempt_state :=
  let '(next_time, diagnostics, iterand, solver_internal_state, _, _) :=
    _states in
  let iterand := clamp_to_next_time next_time iterand in
  let '(diagnostics, iterand) :=
    refresh_jacobian diagnostics iterand solver_internal_state in
  (false, diagnostics, iterand, solver_internal_state).

Definition step (fuel : nat) (_states : step_state) : option step_state :=
  let '(next_time, _, _, _, state_vec, times) := _states in
  match
    while_loop fuel maybe_step_cond (fun s => Some (maybe_step s))
      (step_entry _states)
  with
  | Some (_, diagnostics, iterand, solver_internal_state) =>
      Some (next_time, diagnostics, iterand, solver_internal_state,
            state_vec, times)
  | None => None
  end.

Definition step_cond (_states : step_state) : bool :=
  let '(next_time, diagnostics, iterand, _, _, _) := _states in
  (time iterand <? next_time) && (status diagnostics =? 0)%Z.

(** The state of the loop of [_solve]: the index of the output time being
    advanced to, the solver's records and the two output arrays. *)
Definition solve_state : Type :=
  (nat * _BDFDiagnostics * _BDFIterand * _BDFSolverInternalState
   * list Vec * list F)%type.

(** [solution_times[n]]. *)
Definition nth_solution_time (n : nat) : F :=
  jnp_index fzero (solution_times prob) (Z.of_nat n).

Definition advance_to_solution_time (fuel : nat) (_states : solve_state)
  : option solve_state :=
  let '(n, diagnostics, iterand, solver_internal_state, state_vec, times) :=
    _states in
  match
    while_loop fuel step_cond (step fuel)
      (nth_solution_time n, diagnostics, iterand, solver_internal_state,
       state_vec, times)
  with
  | Some (_, diagnostics, iterand, solver_internal_state, state_vec, times) =>
      let state_vec :=
        <[n := jnp_index [] (backward_differences solver_internal_state) 0]>
          state_vec in
      let times := <[n := nth_solution_time n]> times in
      Some (S n, diagnostics, iterand, solver_internal_state, state_vec,
            times)
  | None => None
  end.

Definition advance_to_solution_time_cond (_states : solve_state) : bool :=
  let '(n, diagnostics, _, _, _, _) := _states in
  (n <? length (solution_times prob))%nat && (status diagnostics =? 0)%Z.

(** The parts of the loop state of [_solve]. *)
Definition loop_index (s : solve_state) : nat := s.1.1.1.1.1.
Definition loop_diagnostics (s : solve_state) : _BDFDiagnostics :=
  s.1.1.1.1.2.
Definition loop_iterand (s : solve_state) : _BDFIterand := s.1.1.1.2.
Definition loop_internal_state (s : solve_state) : _BDFSolverInternalState :=
  s.1.1.2.
Definition loop_states (s : solve_state) : list Vec := s.1.2.
Definition loop_times (s : solve_state) : list F := s.2.

(** An attempt state whose Jacobian is marked stale and whose corrector
    does not converge. *)
Definition newton_stuck (st : attempt_state) : Prop :=
  jacobian_is_up_to_date (iterand_of st) = false /\
  newton_converged
    (attempt_newton (iterand_of st) (internal_state_of st)) = false.

(** With no step-size update pending, the pending step size is the step
    size in use. *)
Definition pending_step_consistent (it : _BDFIterand)
    (s : _BDFSolverInternalState) : Prop :=
  should_update_step_size it = false -> new_step_size it = step_size s.

(** The counter of attempts against a budget of [m] attempts: the status is
    0 or -1, and the counter is at most [m] while the status is 0 and at
    most [m + 1] once it is not. *)
Definition within_budget (m : Z) (d : _BDFDiagnostics) (it : _BDFIterand)
  : Prop :=
  (status d = 0%Z \/ status d = (-1)%Z) /\
  (0 <= num_steps it <= m + 1)%Z /\
  (status d = 0%Z -> (num_steps it <= m)%Z).

End Solver.

Section Solve.
Context {SC : Scalar} (U : bdf_util.t) (self : BDF) (prob : Problem).
Local Open Scope scalar_scope.

(** [_get_common_params_and_coefficients]: the coefficients are the table.
    The parameters are the attributes of [self] converted to arrays, the
    counts to [int64]; the solver reads the attributes, and the conversions
    are kept for what they reject only: that of [max_num_steps] raises
    [OverflowError] on a Python float infinity (see [step_budget]). *)
Definition _get_common_params_and_coefficients : Coefficients :=
  let '(newton_coefficients, error_cofficients) :=
    _get_coefficients U (bdf_coefficients self) in
  mk_Coefficients newton_coefficients error_cofficients.

Definition _initialize_solver_internal_state : _BDFSolverInternalState :=
  let e := _get_common_params_and_coefficients in
  let first_step_size :=
    bdf_util.first_step_size U (atol self)
      (jnp_index fzero (error_coefficients e) 1) (initial_state_vec prob)
      (initial_time prob) (ode_fn_vec prob) (rtol self)
      (safety_factor self) in
  let first_order_backward_difference :=
    map (fun y => y * first_step_size)
      (ode_fn_vec prob (initial_time prob) (initial_state_vec prob)) in
  let num_odes := length (initial_state_vec prob) in
  let backward_differences :=
    [initial_state_vec prob] ++ [first_order_backward_difference] ++
    replicate (Z.to_nat (bdf_util.MAX_ORDER U + 1)) (replicate num_odes fzero) in
  mk_BDFSolverInternalState backward_differences 1 first_step_size.

(** The loop state [_solve] starts from. *)
Definition initial_solve_state : solve_state :=
  let solver_internal_state := _initialize_solver_internal_state in
  let num_odes := length (initial_state_vec prob) in
  let diagnostics := mk_BDFDiagnostics 0 0 0 0 in
  let iterand :=
    mk_BDFIterand (replicate num_odes (replicate num_odes fzero)) false
      (step_size solver_internal_state) 0 0 true false (initial_time prob)
      (replicate num_odes (replicate num_odes fzero))
      (replicate num_odes (replicate num_odes fzero)) in
  let num_solution_times := length (solution_times prob) in
  let state_vec_size := length (initial_state_vec prob) in
  let state_vec := replicate num_solution_times (replicate state_vec_size fzero) in
  let times := replicate num_solution_times fzero in
  (O, diagnostics, iterand, solver_internal_state, state_vec, times).

(** The loop of [_solve], with the whole loop state as its result. *)
Definition solve_loop (fuel : nat) : option solve_state :=
  let e := _get_common_params_and_coefficients in
  while_loop fuel (advance_to_solution_time_cond prob)
    (advance_to_solution_time U self prob e fuel) initial_solve_state.

(** The loop state after [k] turns of the loop of [_solve], whatever the
    loop condition says. *)
Fixpoint solve_turns (fuel : nat) (k : nat) : option solve_state :=
  match k with
  | O => Some initial_solve_state
  | S k' =>
      match solve_turns fuel k' with
      | Some st =>
          advance_to_solution_time U self prob
            _get_common_params_and_coefficients fuel st
      | None => None
      end
  end.

(** The state row the output array is initialised with. *)
Definition zero_state : Vec :=
  replicate (length (initial_state_vec prob)) fzero.

(** Slot [i] of the output arrays holds what turn [i + 1] of the loop of
    [_solve] ended with: the requested time and the state estimate. *)
Definition slot_written (fuel : nat) (i : nat) (times : list F)
    (states : list Vec) (st : solve_state) : Prop :=
  solve_turns fuel (S i) = Some st /\
  times !! i = Some (nth_solution_time prob i) /\
  states !! i =
    Some (jnp_index [] (backward_differences (loop_internal_state st)) 0).

(** Slot [i] holds a valid pair: it was written with the status 0 and the
    solver time not before the requested time. *)
Definition slot_reached (fuel : nat) (i : nat) (times : list F)
    (states : list Vec) : Prop :=
  exists st : solve_state,
    slot_written fuel i times states st /\
    status (loop_diagnostics st) = 0%Z /\
    (time (loop_iterand st) <? nth_solution_time prob i) = false.

Definition _solve (fuel : nat) : option Results :=
  match solve_loop fuel with
  | Some (_, diagnostics, iterand, solver_internal_state, state_vec, times) =>
      Some (mk_Results times state_vec diagnostics solver_internal_state)
  | None => None
  end.

End Solve.

(** ** What the sources leave to [bdf_util] *)

(** Modelled from the spec: [bdf_util.ORDERS], the order indices 0 to 5 that
    index the six base coefficients; the module [bdf_util] is not among the
    sources. *)
Definition order_indices : list Z := [0; 1; 2; 3; 4; 5].

Section StepSizeFormula.
Context {SC : Scalar} (power : F -> F -> F).
Local Open Scope scalar_scope.

(** Modelled from the spec: the [clamp] of the step-size formula of
    [bdf_util.next_step_size], which is not among the sources. *)
Definition clamp (x lo hi : F) : F :=
  let y := if x <? lo then lo else x in
  if hi <? y then hi else y.

(** Modelled from the spec: [bdf_util.next_step_size], which is not among
    the sources:
    [newStep = step * clamp(safetyFactor * errorRatio^(-1/(order+1)),
    minStepSizeFactor, maxStepSizeFactor)]. *)
Definition next_step_size_formula (step_size : F) (order : Z)
    (error_ratio safety_factor min_step_size_factor max_step_size_factor : F)
  : F :=
  step_size *
  clamp
    (safety_factor *
     power error_ratio (of_int (-1) / of_int (order + 1)))
    min_step_size_factor max_step_size_factor.

End StepSizeFormula.

(** Laws of the comparison, the product and the difference that binary64
    and exact arithmetic share.  [flt x y = false] reads: [x] is not below
    [y], which holds of any comparison with a NaN.  On binary64 the strict
    comparison is transitive; rounding is monotone, so the product with a
    factor that is not below zero keeps the order of the numbers it can
    order (a NaN, or an infinity times a zero, leaves nothing to compare,
    and an underflow makes the two products equal); a product of two
    numbers that are not below zero is at worst a zero or a NaN; and so is
    the difference of two numbers in order.  Neither strict positivity of a
    product nor any law that orders a NaN is among them: binary64 has
    neither. *)
Class MonotoneScalar (SC : Scalar) : Prop := {
  flt_trans :
    forall x y z : F, flt x y = true -> flt y z = true -> flt x z = true;
  fmul_le_mono :
    forall s x y : F,
      flt s fzero = false -> flt y x = false ->
      flt (fmul s y) (fmul s x) = false;
  fmul_not_below_zero :
    forall x y : F,
      flt x fzero = false -> flt y fzero = false ->
      flt (fmul x y) fzero = false;
  fsub_not_below_zero :
    forall x y : F, flt x y = true -> flt (fsub y x) fzero = false
}.

(** ** Two scalar instances *)

(** binary64, the scalar type of the source ([jax_enable_x64]). *)
Module Float64.

Definition float_of_int (z : Z) : float :=
  if (z <? 0)%Z then PrimFloat.opp (PrimFloat.of_uint63 (Uint63.of_Z (- z)))
  else PrimFloat.of_uint63 (Uint63.of_Z z).

(** [np.linalg.norm] of a vector. *)
Definition euclidean_norm (v : list float) : float :=
  PrimFloat.sqrt
    (fold_left (fun acc x => PrimFloat.add acc (PrimFloat.mul x x)) v
       PrimFloat.zero).

#[export] Instance scalar : Scalar := {|
  F := float;
  fzero := PrimFloat.zero;
  fone := PrimFloat.one;
  fnan := PrimFloat.nan;
  fadd := PrimFloat.add;
  fsub := PrimFloat.sub;
  fmul := PrimFloat.mul;
  fdiv := PrimFloat.div;
  fabs := PrimFloat.abs;
  flt := PrimFloat.ltb;
  of_int := float_of_int;
  norm := euclidean_norm
|}.

End Float64.

(** The rationals: exact arithmetic.  They have no NaN: [fnan] is a value
    that is not below one, which is all the solver asks of it; and the sum
    of the absolute values stands for the Euclidean norm, which is not
    rational. *)
Module Exact.

Definition lt (a b : Q) : bool := negb (Qle_bool b a).

Definition taxicab_norm (v : list Q) : Q :=
  fold_left (fun acc x => Qplus acc (Qabs x)) v (0 # 1)%Q.

#[export] Instance scalar : Scalar := {|
  F := Q;
  fzero := (0 # 1)%Q;
  fone := (1 # 1)%Q;
  fnan := (1 # 1)%Q;
  fadd := Qplus;
  fsub := Qminus;
  fmul := Qmult;
  fdiv := Qdiv;
  fabs := Qabs;
  flt := lt;
  of_int := inject_Z;
  norm := taxicab_norm
|}.

End Exact.

(** ** A computed example

    A collaborator, a configuration and a problem on binary64, to run the
    definitions on. *)
Module Example.
Import Float64.

(** The float64 value of the decimal [a / b], for integers that binary64
    holds exactly: the division rounds as the literal does. *)
Definition ratio (a b : Z) : float :=
  PrimFloat.div (float_of_int a) (float_of_int b).

(** The step-size formula of the controller on binary64, for order 1, where
    the exponent [-1 / (order + 1)] is [-1/2]. *)
Definition next_step_size_order1 (step_size : float) (order : Z)
    (error_ratio safety_factor min_step_size_factor max_step_size_factor
       : float) : float :=
  let factor := PrimFloat.div 1 (PrimFloat.sqrt error_ratio) in
  let x := PrimFloat.mul safety_factor factor in
  let x := if PrimFloat.ltb x min_step_size_factor
           then min_step_size_factor else x in
  let x := if PrimFloat.ltb max_step_size_factor x
           then max_step_size_factor else x in
  PrimFloat.mul step_size x.

(** A corrector that converges in one iteration with a zero correction, and
    an error norm that is zero: the helpers on a constant solution. *)
Definition converging : bdf_util.t := {|
  bdf_util.MAX_ORDER := 5;
  bdf_util.ORDERS := [0; 1; 2; 3; 4; 5];
  bdf_util.RECIPROCAL_SUMS :=
    [PrimFloat.nan; ratio 1 1; ratio 3 2; ratio 11 6; ratio 25 12;
     ratio 137 60];
  bdf_util.interpolate_backward_differences := fun bd _ _ => bd;
  bdf_util.update_backward_differences := fun bd _ _ _ => bd;
  bdf_util.newton_qr := fun _ _ _ => ([[PrimFloat.one]], [[PrimFloat.one]]);
  bdf_util.newton := fun bd _ _ _ _ _ _ _ _ _ =>
    mk_NewtonResult true [PrimFloat.zero] (jnp_index [] bd 0) 1;
  bdf_util.error_ratio := fun _ _ _ => PrimFloat.zero;
  bdf_util.next_step_size := next_step_size_order1;
  bdf_util.first_step_size := fun _ _ _ _ _ _ _ => PrimFloat.one
|}.

(** A corrector that does not converge, as with no Newton iteration
    allowed. *)
Definition stalled : bdf_util.t := {|
  bdf_util.MAX_ORDER := 5;
  bdf_util.ORDERS := [0; 1; 2; 3; 4; 5];
  bdf_util.RECIPROCAL_SUMS :=
    [PrimFloat.nan; ratio 1 1; ratio 3 2; ratio 11 6; ratio 25 12;
     ratio 137 60];
  bdf_util.interpolate_backward_differences := fun bd _ _ => bd;
  bdf_util.update_backward_differences := fun bd _ _ _ => bd;
  bdf_util.newton_qr := fun _ _ _ => ([[PrimFloat.one]], [[PrimFloat.one]]);
  bdf_util.newton := fun bd _ _ _ _ _ _ _ _ _ =>
    mk_NewtonResult false [PrimFloat.zero] (jnp_index [] bd 0) 0;
  bdf_util.error_ratio := fun _ _ _ => PrimFloat.zero;
  bdf_util.next_step_size := next_step_size_order1;
  bdf_util.first_step_size := fun _ _ _ _ _ _ _ => PrimFloat.one
|}.

(** [x ^ y] at [y = -1/2], the exponent of the step-size formula at order
    1: the runs with the corrector [rejecting] stay at that order. *)
Definition inverse_sqrt (x y : float) : float :=
  PrimFloat.div PrimFloat.one (PrimFloat.sqrt x).

(** A corrector that converges, to an estimate whose error norm is 4 at
    every attempt: every attempt is rejected for error.  The next step size
    is the step-size formula itself, on binary64. *)
Definition rejecting : bdf_util.t := {|
  bdf_util.MAX_ORDER := 5;
  bdf_util.ORDERS := [0; 1; 2; 3; 4; 5];
  bdf_util.RECIPROCAL_SUMS :=
    [PrimFloat.nan; ratio 1 1; ratio 3 2; ratio 11 6; ratio 25 12;
     ratio 137 60];
  bdf_util.interpolate_backward_differences := fun bd _ _ => bd;
  bdf_util.update_backward_differences := fun bd _ _ _ => bd;
  bdf_util.newton_qr := fun _ _ _ => ([[PrimFloat.one]], [[PrimFloat.one]]);
  bdf_util.newton := fun bd _ _ _ _ _ _ _ _ _ =>
    mk_NewtonResult true [PrimFloat.zero] (jnp_index [] bd 0) 1;
  bdf_util.error_ratio := fun _ _ _ => ratio 4 1;
  bdf_util.next_step_size := next_step_size_formula inverse_sqrt;
  bdf_util.first_step_size := fun _ _ _ _ _ _ _ => PrimFloat.one
|}.

(** Numbers of binary64 at its edges and between them: NaN, the zeros, the
    smallest and the largest numbers, the infinities, of both signs. *)
Definition edge_values : list float :=
  let positive :=
    [PrimFloat.zero; PrimFloat.next_up PrimFloat.zero;
     PrimFloat.next_up (PrimFloat.next_up PrimFloat.zero);
     ratio 1 10; ratio 45 100; ratio 1 2; PrimFloat.one;
     PrimFloat.next_up PrimFloat.one; ratio 3 2; ratio 10 1;
     PrimFloat.next_down PrimFloat.infinity; PrimFloat.infinity] in
  PrimFloat.nan :: positive ++ map PrimFloat.opp positive.

(** A law in three numbers, at every triple of [edge_values]. *)
Definition at_edge_values (law : float -> float -> float -> bool) : bool :=
  forallb
    (fun x => forallb (fun y => forallb (law x y) edge_values) edge_values)
    edge_values.

(** The default tolerances, factors, orders and coefficients of
    [BDF.__init__], with the step budget given: [max_num_steps] is the
    one attribute that is not left at its default. *)
Definition config (budget : step_budget) : BDF := {|
  rtol := ratio 1 1000;
  atol := ratio 1 1000000;
  first_step_size := None;
  safety_factor := ratio 9 10;
  min_step_size_factor := ratio 1 10;
  max_step_size_factor := ratio 10 1;
  max_num_steps := budget;
  max_order := 5;
  max_num_newton_iters := 4;
  newton_tol_factor := ratio 1 10;
  newton_step_size_factor := ratio 1 2;
  bdf_coefficients :=
    [ratio 0 1; ratio 185 1000; ratio (-1) 9; ratio (-823) 10000;
     ratio (-415) 10000; ratio 0 1];
  _evaluate_jacobian_lazily := false
|}.

(** [dy/dt = 0] from [y(0) = 1], asked for at [t = 1] and [t = 2]. *)
Definition problem : Problem := {|
  ode_fn_vec := fun _ y => map (fun _ => PrimFloat.zero) y;
  jacobian_fn := fun _ _ => [[PrimFloat.zero]];
  initial_time := PrimFloat.zero;
  initial_state_vec := [PrimFloat.one];
  solution_times := [ratio 1 1; ratio 2 1]
|}.

Definition table (U : bdf_util.t) : Coefficients :=
  _get_common_params_and_coefficients U (config unbounded).

(** The records [_solve] starts from, and an iterand further on. *)
Definition diagnostics0 : _BDFDiagnostics := mk_BDFDiagnostics 0 0 0 0.

Definition iterand0 : _BDFIterand :=
  mk_BDFIterand [[PrimFloat.zero]] false PrimFloat.one 0 0 true false
    PrimFloat.zero [[PrimFloat.zero]] [[PrimFloat.zero]].

Definition state0 : _BDFSolverInternalState :=
  mk_BDFSolverInternalState
    ([[PrimFloat.one]; [PrimFloat.zero]] ++
     replicate 6 [PrimFloat.zero]) 1 PrimFloat.one.

(** An iterand with the solver at time 3, past the first requested time. *)
Definition iterand_at_three : _BDFIterand :=
  mk_BDFIterand [[PrimFloat.zero]] false PrimFloat.one 3 3 false false
    (ratio 3 1) [[PrimFloat.one]] [[PrimFloat.one]].

(** What the run with the corrector [stalled] and a budget of one attempt
    ends with. *)
Definition stalled_final : solve_state :=
  (1%nat, mk_BDFDiagnostics 1 2 0 (-1),
   mk_BDFIterand [[PrimFloat.zero]] false PrimFloat.one 2 0 true false
     PrimFloat.zero [[PrimFloat.one]] [[PrimFloat.one]],
   state0, [[PrimFloat.one]; [PrimFloat.zero]],
   [PrimFloat.one; PrimFloat.zero]).

End Example.

(** The same on the rationals, with an error norm of 1/4 throughout and,
    for the step-size formula, the one power the example asks for:
    [(1/4)^(-1/2) = 2]. *)
Module ExactExample.
Import Exact.

Definition power (x y : Q) : Q := (2 # 1)%Q.

Definition collaborator : bdf_util.t := {|
  bdf_util.MAX_ORDER := 5;
  bdf_util.ORDERS := order_indices;
  bdf_util.RECIPROCAL_SUMS :=
    [(1 # 1); (1 # 1); (3 # 2); (11 # 6); (25 # 12); (137 # 60)]%Q;
  bdf_util.interpolate_backward_differences := fun bd _ _ => bd;
  bdf_util.update_backward_differences := fun bd _ _ _ => bd;
  bdf_util.newton_qr := fun _ _ _ => ([[(1 # 1)%Q]], [[(1 # 1)%Q]]);
  bdf_util.newton := fun bd _ _ _ _ _ _ _ _ _ =>
    mk_NewtonResult true [(0 # 1)%Q] (jnp_index [] bd 0) 1;
  bdf_util.error_ratio := fun _ _ _ => (1 # 4)%Q;
  bdf_util.next_step_size := next_step_size_formula power;
  bdf_util.first_step_size := fun _ _ _ _ _ _ _ => (1 # 1)%Q
|}.

Definition config : BDF := {|
  rtol := (1 # 1000)%Q;
  atol := (1 # 1000000)%Q;
  first_step_size := None;
  safety_factor := (9 # 10)%Q;
  min_step_size_factor := (1 # 10)%Q;
  max_step_size_factor := (10 # 1)%Q;
  max_num_steps := unbounded;
  max_order := 5;
  max_num_newton_iters := 4;
  newton_tol_factor := (1 # 10)%Q;
  newton_step_size_factor := (1 # 2)%Q;
  bdf_coefficients :=
    [(0 # 1); (185 # 1000); (-1 # 9); (-823 # 10000); (-415 # 10000);
     (0 # 1)]%Q;
  _evaluate_jacobian_lazily := false
|}.

Definition problem : Problem := {|
  ode_fn_vec := fun _ y => map (fun _ => (0 # 1)%Q) y;
  jacobian_fn := fun _ _ => [[(0 # 1)%Q]];
  initial_time := (0 # 1)%Q;
  initial_state_vec := [(1 # 1)%Q];
  solution_times := [(1 # 1); (2 # 1)]%Q
|}.

Definition table : Coefficients :=
  _get_common_params_and_coefficients collaborator config.

(** An attempt state after five steps of size one. *)
Definition fifth_state : attempt_state :=
  (false, mk_BDFDiagnostics 5 5 5 0,
   mk_BDFIterand [[(0 # 1)%Q]] false (1 # 1)%Q 5 5 false false (5 # 1)%Q
     [[(1 # 1)%Q]] [[(1 # 1)%Q]],
   mk_BDFSolverInternalState
     ([[(1 # 1)%Q]; [(0 # 1)%Q]] ++ replicate 6 [(0 # 1)%Q]) 1 (1 # 1)%Q).

(** A collaborator whose error norm reads the first entry of the
    difference it is given, and whose corrector returns the difference 1/4;
    with it the rows of the history decide the scan. *)
Definition reading : bdf_util.t := {|
  bdf_util.MAX_ORDER := 5;
  bdf_util.ORDERS := order_indices;
  bdf_util.RECIPROCAL_SUMS :=
    [(1 # 1); (1 # 1); (3 # 2); (11 # 6); (25 # 12); (137 # 60)]%Q;
  bdf_util.interpolate_backward_differences := fun bd _ _ => bd;
  bdf_util.update_backward_differences := fun bd _ _ _ => bd;
  bdf_util.newton_qr := fun _ _ _ => ([[(1 # 1)%Q]], [[(1 # 1)%Q]]);
  bdf_util.newton := fun bd _ _ _ _ _ _ _ _ _ =>
    mk_NewtonResult true [(1 # 4)%Q] (jnp_index [] bd 0) 1;
  bdf_util.error_ratio := fun v _ _ => hd (0 # 1)%Q v;
  bdf_util.next_step_size := next_step_size_formula power;
  bdf_util.first_step_size := fun _ _ _ _ _ _ _ => (1 # 1)%Q
|}.

(** An attempt state at order 2 after five steps of size one; rows 2 and 4
    of the history are what the scan reads for the orders 1 and 3. *)
Definition second_order_state (row2 row4 : Q) : attempt_state :=
  (false, mk_BDFDiagnostics 5 5 5 0,
   mk_BDFIterand [[(0 # 1)%Q]] false (1 # 1)%Q 5 5 false false (5 # 1)%Q
     [[(1 # 1)%Q]] [[(1 # 1)%Q]],
   mk_BDFSolverInternalState
     [[(1 # 1)%Q]; [(0 # 1)%Q]; [row2]; [(0 # 1)%Q]; [row4]; [(0 # 1)%Q];
      [(0 # 1)%Q]; [(0 # 1)%Q]] 2 (1 # 1)%Q).

End ExactExample.

(** * The step controller *)

(** Int64 addition of one, away from the largest value. *)
Lemma int64_add_1 (n : Z) :
  (Int64.min_int <= n < Int64.max_int)%Z -> Int64.add n 1 = (n + 1)%Z.
Proof.
  unfold Int64.add, Int64.wrap, Int64.min_int, Int64.max_int. intros H.
  rewrite Z.mod_small; lia.
Qed.

Section AttemptEquation.
Context {SC : Scalar} (U : bdf_util.t) (self : BDF) (prob : Problem)
  (e : Coefficients).
Local Open Scope scalar_scope.

Local Abbreviation attempt := (maybe_step U self prob e).
Local Abbreviation accepted_at := (attempt_accepted U self prob e).
Local Abbreviation newton_at := (attempt_newton U self prob e).
Local Abbreviation step_size_at := attempt_step_size.
Local Abbreviation scan_at := (attempt_scan U self prob e).
Local Abbreviation adapts_at := (attempt_adapts U self prob e).

(** [maybe_step] in terms of the values of the attempt. *)
Lemma maybe_step_eq (a : bool) (d : _BDFDiagnostics) (it : _BDFIterand)
    (s : _BDFSolverInternalState) :
  attempt (a, d, it, s) =
  (accepted_at it s,
   mk_BDFDiagnostics (num_jacobian_evaluations d)
     (Int64.add (num_matrix_factorizations d) 1)
     (Int64.add (num_ode_fn_evaluations d)
        (newton_num_iters (newton_at it s)))
     (if budget_reached (num_steps it) (max_num_steps self)
      then (-1)%Z else 0%Z),
   mk_BDFIterand (jacobian_mat it)
     (jacobian_is_up_to_date it && negb (accepted_at it s))
     (if adapts_at it s
      then bdf_util.next_step_size U (step_size_at it s) (scan_at it s).1
             (scan_at it s).2 (safety_factor self)
             (min_step_size_factor self) (max_step_size_factor self)
      else if newton_converged (newton_at it s) && negb (accepted_at it s)
      then bdf_util.next_step_size U (step_size_at it s) (order s)
             (attempt_error_ratio U self prob e it s) (safety_factor self)
             (min_step_size_factor self) (max_step_size_factor self)
      else step_size_at it s *
           (if negb (newton_converged (newton_at it s)) &&
               jacobian_is_up_to_date it
            then newton_step_size_factor self else fone))
     (Int64.add (num_steps it) 1)
     (attempt_same_size U self prob e it s)
     (negb (newton_converged (newton_at it s)) &&
      negb (jacobian_is_up_to_date it))
     ((negb (newton_converged (newton_at it s)) && jacobian_is_up_to_date it
       || newton_converged (newton_at it s) && negb (accepted_at it s))
      || adapts_at it s)
     (if accepted_at it s then time it + step_size_at it s else time it)
     (attempt_factorization U e it s).1
     (attempt_factorization U e it s).2,
   mk_BDFSolverInternalState (attempt_history U self prob e it s)
     (scan_at it s).1 (step_size_at it s)).
Proof.
  destruct d, it, s.
  unfold maybe_step, attempt_scan, attempt_adapts, attempt_same_size,
    attempt_history, attempt_accepted, attempt_error_ratio, attempt_newton,
    attempt_factorization, attempt_tol, attempt_backward_differences,
    attempt_step_size.
  cbn [jacobian_mat jacobian_is_up_to_date new_step_size num_steps
       num_steps_same_size should_update_jacobian should_update_step_size
       time unitary upper backward_differences order step_size
       num_jacobian_evaluations num_matrix_factorizations
       num_ode_fn_evaluations status].
  destruct (bdf_util.newton_qr _ _ _ _) as [q r].
  cbn [fst snd].
  destruct (bdf_util.newton _ _ _ _ _ _ _ _ _ _ _) as [conv nbd nsv iters].
  cbn [newton_converged next_backward_difference next_state_vec
       newton_num_iters].
  destruct (fold_left _ _ _) as [new_order new_error_ratio].
  reflexivity.
Qed.

End AttemptEquation.

Section StepController.
Context {SC : Scalar} (U : bdf_util.t) (self : BDF) (prob : Problem)
  (e : Coefficients).
Local Open Scope scalar_scope.

Local Abbreviation attempt := (maybe_step U self prob e).
Local Abbreviation accepted_at := (attempt_accepted U self prob e).
Local Abbreviation newton_at := (attempt_newton U self prob e).
Local Abbreviation step_size_at := attempt_step_size.
Local Abbreviation scan_at := (attempt_scan U self prob e).
Local Abbreviation adapts_at := (attempt_adapts U self prob e).

(** The values of an attempt do not depend on the step budget. *)
Lemma attempt_budget_irrelevant (cfg : BDF) (b : step_budget)
    (a : bool) (d : _BDFDiagnostics) (it : _BDFIterand)
    (s : _BDFSolverInternalState) :
  maybe_step U (with_budget cfg b) prob e (a, d, it, s) =
  with_status (maybe_step U cfg prob e (a, d, it, s))
    (if budget_reached (num_steps it) b then (-1)%Z else 0%Z).
Proof.
  rewrite !maybe_step_eq. destruct cfg. reflexivity.
Qed.

(** The scan over the two offsets, written out. *)
Lemma attempt_scan_eq (it : _BDFIterand) (s : _BDFSolverInternalState) :
  scan_at it s =
  if adapts_at it s then
    let first :=
      if proposed_error_ratio U self prob e it s (-1)
         <? attempt_error_ratio U self prob e it s
      then (proposed_order self s (-1),
            proposed_error_ratio U self prob e it s (-1))
      else (order s, attempt_error_ratio U self prob e it s) in
    if proposed_error_ratio U self prob e it s 1 <? first.2
    then (proposed_order self s 1, proposed_error_ratio U self prob e it s 1)
    else first
  else (order s, attempt_error_ratio U self prob e it s).
Proof.
  unfold attempt_scan, order_scan, proposed_error_ratio, proposed_order.
  cbn [fold_left].
  destruct (adapts_at it s); cbn [andb]; [|reflexivity].
  destruct (flt _ (attempt_error_ratio U self prob e it s));
    cbn [fst snd]; destruct (flt _ _); reflexivity.
Qed.

(** An attempt that is not accepted leaves the order alone. *)
Lemma scan_of_rejected (it : _BDFIterand) (s : _BDFSolverInternalState) :
  accepted_at it s = false -> (scan_at it s).1 = order s.
Proof.
  intros H. rewrite attempt_scan_eq. unfold attempt_adapts. rewrite H.
  reflexivity.
Qed.

(** A failed corrector gives the error ratio [nan], which is not below
    one. *)
Lemma failed_newton_rejected (it : _BDFIterand)
    (s : _BDFSolverInternalState) :
  (fnan <? fone) = false ->
  newton_converged (newton_at it s) = false ->
  accepted_at it s = false.
Proof.
  intros Hnan Hfail. unfold attempt_accepted, attempt_error_ratio.
  rewrite Hfail. exact Hnan.
Qed.

(** C1. The order and step-size co-adaptation of [maybe_step] runs exactly
    when the attempt is accepted and the counter [num_steps_same_size] it
    returns exceeds [order + 1]; otherwise the order is returned unchanged.
    When it runs, the offsets are scanned in the order -1, +1: the proposal
    for -1 (its order clipped into [1, max_order]) is adopted when its error
    ratio is strictly below the error ratio of the attempt, and the proposal
    for +1 is adopted when its error ratio is strictly below the ratio kept
    so far, so that a tie keeps the incumbent and a strictly lower +1
    overrides an adopted -1.  The pair the scan ends with gives the returned
    order and the error ratio of the next step size. *)
Theorem order_adaptation_scan (st : attempt_state) :
  let it := iterand_of st in
  let s := internal_state_of st in
  let st' := attempt st in
  let ratio := attempt_error_ratio U self prob e it s in
  let lower := proposed_error_ratio U self prob e it s (-1) in
  let higher := proposed_error_ratio U self prob e it s 1 in
  let first :=
    if lower <? ratio then (proposed_order self s (-1), lower)
    else (order s, ratio) in
  let second :=
    if higher <? first.2 then (proposed_order self s 1, higher) else first in
  adapts_at it s =
    accepted_of st' &&
    (Int64.add (order s) 1 <? num_steps_same_size (iterand_of st'))%Z /\
  order (internal_state_of st') = (if adapts_at it s then second.1 else order s) /\
  (if adapts_at it s then
     new_step_size (iterand_of st') =
     bdf_util.next_step_size U (step_size (internal_state_of st')) second.1
       second.2 (safety_factor self) (min_step_size_factor self)
       (max_step_size_factor self)
   else (scan_at it s).2 = ratio) /\
  (forall offset : Z,
     (Z.min 1 (max_order self) <= proposed_order self s offset
      <= max_order self)%Z).
Proof.
  destruct st as [[[a d] it] s]. cbv zeta.
  unfold iterand_of, internal_state_of, accepted_of.
  rewrite maybe_step_eq. cbn [fst snd order new_step_size step_size
    num_steps_same_size].
  rewrite attempt_scan_eq.
  split; [reflexivity|]. split.
  - destruct (adapts_at it s); reflexivity.
  - split.
    + destruct (adapts_at it s); reflexivity.
    + intros offset. unfold proposed_order, Int64.clip. lia.
Qed.

(** C2 (as the code has it).  When [num_steps] equals [max_num_steps] at
    the start of an attempt, the attempt returns status -1, which ends the
    retry loop, and is otherwise carried out in full: its result is that of
    the same attempt made with no step budget, with the status replaced;
    the factorization counter, the counter of right-hand-side evaluations
    and [num_steps] are all advanced. *)
Theorem exhausted_budget_attempt (st : attempt_state) :
  budget_reached (num_steps (iterand_of st)) (max_num_steps self) = true ->
  let st' := attempt st in
  status (diagnostics_of st') = (-1)%Z /\
  maybe_step_cond st' = false /\
  st' = with_status
          (maybe_step U (with_budget self unbounded) prob e st) (-1) /\
  num_matrix_factorizations (diagnostics_of st') =
    Int64.add (num_matrix_factorizations (diagnostics_of st)) 1 /\
  num_ode_fn_evaluations (diagnostics_of st') =
    Int64.add (num_ode_fn_evaluations (diagnostics_of st))
      (newton_num_iters (newton_at (iterand_of st) (internal_state_of st))) /\
  num_steps (iterand_of st') = Int64.add (num_steps (iterand_of st)) 1.
Proof.
  destruct st as [[[a d] it] s]. unfold iterand_of, internal_state_of,
    diagnostics_of. cbn [fst snd]. intros Hb. cbv zeta.
  rewrite attempt_budget_irrelevant. cbn [budget_reached].
  rewrite !maybe_step_eq.
  unfold with_status, maybe_step_cond, accepted_of, diagnostics_of,
    iterand_of, internal_state_of.
  cbn [fst snd status num_matrix_factorizations num_ode_fn_evaluations
       num_steps num_jacobian_evaluations].
  rewrite Hb. cbn [Z.eqb]. rewrite andb_false_r.
  repeat split.
Qed.

(** C5. When the Newton corrector of an attempt does not converge, the
    attempt is not accepted and the order is unchanged.  If the Jacobian was
    up to date, the new step size is the step size of the attempt times
    [newton_step_size_factor] and a step-size update is pending.  If the
    Jacobian was stale, the Jacobian is marked for re-evaluation, no
    step-size update is pending and the next attempt is made with the same
    step size; the pending value itself is the step size times [1.]. *)
Theorem newton_failure_policy (st : attempt_state) :
  (fnan <? fone) = false ->
  newton_converged (newton_at (iterand_of st) (internal_state_of st)) = false ->
  let st' := attempt st in
  accepted_of st' = false /\
  order (internal_state_of st') = order (internal_state_of st) /\
  step_size (internal_state_of st') =
    step_size_at (iterand_of st) (internal_state_of st) /\
  if jacobian_is_up_to_date (iterand_of st) then
    new_step_size (iterand_of st') =
      step_size (internal_state_of st') * newton_step_size_factor self /\
    should_update_step_size (iterand_of st') = true /\
    should_update_jacobian (iterand_of st') = false
  else
    should_update_jacobian (iterand_of st') = true /\
    should_update_step_size (iterand_of st') = false /\
    new_step_size (iterand_of st') = step_size (internal_state_of st') * fone /\
    step_size_at (iterand_of st') (internal_state_of st') =
      step_size (internal_state_of st').
Proof.
  destruct st as [[[a d] it] s]. unfold iterand_of, internal_state_of,
    accepted_of. cbn [fst snd]. intros Hnan Hfail. cbv zeta.
  pose proof (failed_newton_rejected it s Hnan Hfail) as Hrej.
  rewrite maybe_step_eq. cbn [fst snd order step_size new_step_size
    should_update_step_size should_update_jacobian].
  rewrite (scan_of_rejected it s Hrej).
  unfold attempt_adapts. rewrite Hrej, Hfail. cbn [andb negb orb].
  split; [reflexivity|]. split; [reflexivity|]. split; [reflexivity|].
  destruct (jacobian_is_up_to_date it); cbn [andb negb orb].
  - repeat split.
  - repeat split.
Qed.

(** C10. An attempt whose result is not accepted returns the time and the
    order it was given. *)
Theorem rejected_attempt_keeps_time_and_order (st : attempt_state) :
  accepted_of (attempt st) = false ->
  time (iterand_of (attempt st)) = time (iterand_of st) /\
  order (internal_state_of (attempt st)) = order (internal_state_of st).
Proof.
  destruct st as [[[a d] it] s]. unfold iterand_of, internal_state_of,
    accepted_of. rewrite maybe_step_eq. cbn [fst snd time order].
  intros Hrej. rewrite Hrej, (scan_of_rejected it s Hrej). split; reflexivity.
Qed.

End StepController.


(** * The loops *)

Section WhileLoop.
Context {A : Type} (cond_fun : A -> bool) (body_fun : A -> option A).

(** A property that the body keeps holds when the loop ends, and the
    condition is then false. *)
Lemma while_loop_invariant (P : A -> Prop) :
  (forall a b, P a -> cond_fun a = true -> body_fun a = Some b -> P b) ->
  forall (fuel : nat) (x y : A),
    P x -> while_loop fuel cond_fun body_fun x = Some y ->
    P y /\ cond_fun y = false.
Proof.
  intros Hstep fuel. induction fuel as [|fuel IH]; intros x y Hx; cbn;
    destruct (cond_fun x) eqn:Hc; intros Hrun; try discriminate.
  - injection Hrun as <-. split; assumption.
  - destruct (body_fun x) as [b|] eqn:Hb; [|discriminate].
    apply (IH b y); [|exact Hrun]. exact (Hstep x b Hx Hc Hb).
  - injection Hrun as <-. split; assumption.
Qed.

(** A loop whose body returns, keeps a property and lowers a measure ends
    within as many iterations as the measure allows, with the property kept
    and the condition false. *)
Lemma while_loop_total (P : A -> Prop) (measure : A -> nat) :
  (forall a, P a -> cond_fun a = true ->
     exists b, body_fun a = Some b /\ P b /\ (measure b < measure a)%nat) ->
  forall (fuel : nat) (x : A),
    P x -> (measure x <= fuel)%nat ->
    exists y,
      while_loop fuel cond_fun body_fun x = Some y /\ P y /\
      cond_fun y = false.
Proof.
  intros Hstep fuel. induction fuel as [|fuel IH]; intros x Hx Hm; cbn;
    destruct (cond_fun x) eqn:Hc; try (exists x; repeat split; assumption).
  - destruct (Hstep x Hx Hc) as (b & _ & _ & Hlt). lia.
  - destruct (Hstep x Hx Hc) as (b & Hb & Pb & Hlt). rewrite Hb.
    apply IH; [exact Pb | lia].
Qed.

End WhileLoop.

(** * The step driver *)

Section StepDriver.
Context {SC : Scalar} (U : bdf_util.t) (self : BDF) (prob : Problem)
  (e : Coefficients).
Local Open Scope scalar_scope.

Local Abbreviation attempt := (maybe_step U self prob e).
Local Abbreviation retry_loop :=
  (fun fuel => while_loop fuel maybe_step_cond (fun s => Some (attempt s))).

(** An attempt passes the Jacobian and its counter through. *)
Lemma attempt_keeps_jacobian (st : attempt_state) :
  jacobian_mat (iterand_of (attempt st)) = jacobian_mat (iterand_of st) /\
  num_jacobian_evaluations (diagnostics_of (attempt st)) =
  num_jacobian_evaluations (diagnostics_of st).
Proof.
  destruct st as [[[a d] it] s]. rewrite maybe_step_eq. split; reflexivity.
Qed.

Lemma retry_loop_keeps_jacobian (fuel : nat) (st st' : attempt_state) :
  retry_loop fuel st = Some st' ->
  jacobian_mat (iterand_of st') = jacobian_mat (iterand_of st) /\
  num_jacobian_evaluations (diagnostics_of st') =
  num_jacobian_evaluations (diagnostics_of st).
Proof.
  intros Hrun.
  apply (while_loop_invariant maybe_step_cond (fun s => Some (attempt s))
           (fun x =>
              jacobian_mat (iterand_of x) = jacobian_mat (iterand_of st) /\
              num_jacobian_evaluations (diagnostics_of x) =
              num_jacobian_evaluations (diagnostics_of st))
           ) with (fuel := fuel) (x := st) (y := st') in Hrun.
  - exact (proj1 Hrun).
  - intros x y [HJ Hn] _ [= <-].
    destruct (attempt_keeps_jacobian x) as [HJ' Hn'].
    split; congruence.
  - split; reflexivity.
Qed.

(** C6. [step] starts by comparing the pending step size with the distance
    to the target time.  If the pending step size exceeds the distance, the
    retry loop is entered with the distance as the pending step size and
    with [should_update_step_size] set, so that the first attempt is made
    with that step size; otherwise both are as they were given. *)
Theorem step_clamps_to_target (fuel : nat) (next_time : F)
    (d : _BDFDiagnostics) (it : _BDFIterand) (s : _BDFSolverInternalState)
    (state_vec : list Vec) (times : list F) :
  let st := (next_time, d, it, s, state_vec, times) in
  let it0 := iterand_of (step_entry self prob st) in
  step U self prob e fuel st =
    match retry_loop fuel (step_entry self prob st) with
    | Some (_, d', it', s') => Some (next_time, d', it', s', state_vec, times)
    | None => None
    end /\
  if new_step_size it >? next_time - time it then
    new_step_size it0 = next_time - time it /\
    should_update_step_size it0 = true /\
    attempt_step_size it0 s = next_time - time it
  else
    new_step_size it0 = new_step_size it /\
    should_update_step_size it0 = should_update_step_size it.
Proof.
  cbv zeta. split; [reflexivity|].
  unfold step_entry, refresh_jacobian, clamp_to_next_time, iterand_of,
    attempt_step_size.
  cbn [fst snd new_step_size should_update_step_size time].
  destruct (flt (next_time - time it) (new_step_size it)); cbn [orb];
    repeat split.
Qed.

Lemma attempts_keep_jacobian (k : nat) (st : attempt_state) :
  jacobian_mat (iterand_of (Nat.iter k attempt st))
  = jacobian_mat (iterand_of st) /\
  num_jacobian_evaluations (diagnostics_of (Nat.iter k attempt st))
  = num_jacobian_evaluations (diagnostics_of st).
Proof.
  induction k as [|k [IHJ IHn]]; [split; reflexivity|].
  rewrite Nat.iter_succ.
  destruct (attempt_keeps_jacobian (Nat.iter k attempt st)) as [HJ Hn].
  split; congruence.
Qed.

(** C7. In lazy mode with the Jacobian marked up to date, [step] keeps the
    Jacobian matrix and the counter [num_jacobian_evaluations] it was given.
    In every other case the matrix is [jacobian_fn] at the current time and
    the current state estimate (row 0 of the backward differences), and the
    counter is one more.  This is so after any number of attempts of the
    retry loop of [step], and of what [step] returns. *)
Theorem lazy_jacobian_evaluation (fuel : nat) (next_time : F)
    (d : _BDFDiagnostics) (it : _BDFIterand) (s : _BDFSolverInternalState)
    (state_vec : list Vec) (times : list F) :
  (Int64.min_int <= num_jacobian_evaluations d < Int64.max_int)%Z ->
  let st := (next_time, d, it, s, state_vec, times) in
  let keep := _evaluate_jacobian_lazily self && jacobian_is_up_to_date it in
  let matrix :=
    if keep then jacobian_mat it
    else jacobian_fn prob (time it)
           (jnp_index [] (backward_differences s) 0) in
  let count :=
    if keep then num_jacobian_evaluations d
    else (num_jacobian_evaluations d + 1)%Z in
  (forall k : nat,
     let st_k := Nat.iter k attempt (step_entry self prob st) in
     jacobian_mat (iterand_of st_k) = matrix /\
     num_jacobian_evaluations (diagnostics_of st_k) = count) /\
  (forall (next_time' : F) (d' : _BDFDiagnostics) (it' : _BDFIterand)
          (s' : _BDFSolverInternalState) (state_vec' : list Vec)
          (times' : list F),
     step U self prob e fuel st
     = Some (next_time', d', it', s', state_vec', times') ->
     jacobian_mat it' = matrix /\
     num_jacobian_evaluations d' = count).
Proof.
  intros Hrange. cbv zeta.
  assert (Hentry :
    jacobian_mat
      (iterand_of (step_entry self prob
                     (next_time, d, it, s, state_vec, times)))
    = (if _evaluate_jacobian_lazily self && jacobian_is_up_to_date it
       then jacobian_mat it
       else jacobian_fn prob (time it)
              (jnp_index [] (backward_differences s) 0)) /\
    num_jacobian_evaluations
      (diagnostics_of (step_entry self prob
                         (next_time, d, it, s, state_vec, times)))
    = (if _evaluate_jacobian_lazily self && jacobian_is_up_to_date it
       then num_jacobian_evaluations d
       else (num_jacobian_evaluations d + 1)%Z)).
  { unfold step_entry, refresh_jacobian, clamp_to_next_time, iterand_of,
      diagnostics_of.
    cbn [fst snd jacobian_mat jacobian_is_up_to_date time
         num_jacobian_evaluations].
    destruct (_evaluate_jacobian_lazily self && jacobian_is_up_to_date it).
    - split; reflexivity.
    - split; [reflexivity|]. apply int64_add_1. exact Hrange. }
  destruct Hentry as [HJ Hn]. split.
  - intros k.
    destruct (attempts_keep_jacobian k
                (step_entry self prob
                   (next_time, d, it, s, state_vec, times))) as [HJk Hnk].
    split; congruence.
  - intros next_time' d' it' s' state_vec' times'. unfold step.
    destruct (while_loop _ _ _ _) as [[[[a1 d1] it1] s1]|] eqn:Hloop;
      [|discriminate].
    intros [= _ <- <- _ _ _].
    apply retry_loop_keeps_jacobian in Hloop.
    unfold iterand_of, diagnostics_of in Hloop, HJ, Hn.
    cbn [fst snd] in Hloop. destruct Hloop as [HJ1 Hn1].
    split; congruence.
Qed.

End StepDriver.

(** * The step budget *)

Section Budget.
Context {SC : Scalar} (U : bdf_util.t) (self : BDF) (prob : Problem)
  (e : Coefficients) (m : Z) (fuel : nat).
Hypothesis Hbudget : max_num_steps self = at_most m.
Hypothesis Hm : (0 <= m < Int64.max_int)%Z.
Hypothesis Hfuel : (Z.to_nat m + 1 <= fuel)%nat.
Local Open Scope scalar_scope.

Local Abbreviation attempt := (maybe_step U self prob e).
Local Abbreviation retry_loop :=
  (fun fuel => while_loop fuel maybe_step_cond (fun s => Some (attempt s))).

(** An attempt made with the counter at [n <= m] counts itself, and reports
    status -1 exactly when [n = m]. *)
Lemma attempt_within_budget (st : attempt_state) :
  (0 <= num_steps (iterand_of st) <= m)%Z ->
  num_steps (iterand_of (attempt st)) = (num_steps (iterand_of st) + 1)%Z /\
  status (diagnostics_of (attempt st)) =
    (if (num_steps (iterand_of st) =? m)%Z then -1 else 0)%Z /\
  within_budget m (diagnostics_of (attempt st)) (iterand_of (attempt st)).
Proof using Hbudget Hm.
  clear Hfuel.
  destruct st as [[[a d] it] s]. unfold iterand_of, diagnostics_of.
  cbn [fst snd]. intros Hn. rewrite maybe_step_eq.
  cbn [fst snd num_steps status]. rewrite Hbudget. cbn [budget_reached].
  rewrite int64_add_1 by (unfold Int64.min_int; lia).
  split; [reflexivity|]. split; [reflexivity|].
  unfold within_budget. cbn [status num_steps].
  destruct (Z.eqb_spec (num_steps it) m); repeat split; lia.
Qed.

(** The measure of the loops: the attempts left while the status is 0. *)
Local Abbreviation attempts_left :=
  (fun (d : _BDFDiagnostics) (it : _BDFIterand) =>
     Z.to_nat (if (status d =? 0)%Z then m + 1 - num_steps it else 0)).

Lemma attempts_left_le (d : _BDFDiagnostics) (it : _BDFIterand) :
  within_budget m d it -> (attempts_left d it <= Z.to_nat m + 1)%nat.
Proof using Type.
  clear Hfuel Hm Hbudget.
  intros (_ & Hn & _). destruct (status d =? 0)%Z; lia.
Qed.

Lemma maybe_step_cond_status (st : attempt_state) :
  maybe_step_cond st = true -> status (diagnostics_of st) = 0%Z.
Proof using Type.
  clear Hfuel Hm Hbudget.
  destruct st as [[[a d] it] s]. unfold maybe_step_cond, diagnostics_of.
  cbn [fst snd]. intros H. apply andb_true_iff in H. lia.
Qed.

(** The retry loop, entered with the counter within the budget, ends: it
    has made at least one attempt and the counter is still within the
    budget. *)
Lemma retry_loop_total (st : attempt_state) :
  maybe_step_cond st = true ->
  within_budget m (diagnostics_of st) (iterand_of st) ->
  exists st',
    retry_loop fuel st = Some st' /\
    within_budget m (diagnostics_of st') (iterand_of st') /\
    (num_steps (iterand_of st) < num_steps (iterand_of st'))%Z /\
    maybe_step_cond st' = false.
Proof using Hbudget Hm Hfuel.
  intros Hc Hin.
  pose proof (maybe_step_cond_status st Hc) as Hs0.
  assert (Hn : (0 <= num_steps (iterand_of st) <= m)%Z).
  { destruct Hin as (_ & Hn & Hle). specialize (Hle Hs0). lia. }
  pose proof Hfuel as Hfu. revert Hfu. generalize fuel.
  intros [|f] Hfu; [lia|]. cbn [while_loop]. rewrite Hc.
  destruct (attempt_within_budget st Hn) as (Hn1 & _ & Hin1).
  destruct
    (while_loop_total maybe_step_cond (fun s => Some (attempt s))
       (fun x =>
          within_budget m (diagnostics_of x) (iterand_of x) /\
          (num_steps (iterand_of st) < num_steps (iterand_of x))%Z)
       (fun x => attempts_left (diagnostics_of x) (iterand_of x)))
    with (fuel := f) (x := attempt st) as (st' & Hrun & [Hin' Hlt] & Hc').
  - intros x [Hx Hltx] Hcx.
    pose proof (maybe_step_cond_status x Hcx) as Hsx.
    assert (Hnx : (0 <= num_steps (iterand_of x) <= m)%Z).
    { destruct Hx as (_ & Hnx & Hle). specialize (Hle Hsx). lia. }
    destruct (attempt_within_budget x Hnx) as (Hx1 & _ & Hinx).
    exists (attempt x). split; [reflexivity|]. split; [split; [exact Hinx|lia]|].
    rewrite Hx1, Hsx. cbn [Z.eqb].
    destruct (status (diagnostics_of (attempt x)) =? 0)%Z; lia.
  - split; [exact Hin1|lia].
  - rewrite Hn1.
    destruct (status (diagnostics_of (attempt st)) =? 0)%Z; lia.
  - exists st'. split; [exact Hrun|]. split; [exact Hin'|].
    split; [exact Hlt|exact Hc'].
Qed.

(** [step], called with status 0 and the counter within the budget,
    returns: it has made at least one attempt and leaves the target time and
    the output arrays as they were. *)
Lemma step_total (next_time : F) (d : _BDFDiagnostics) (it : _BDFIterand)
    (s : _BDFSolverInternalState) (state_vec : list Vec) (times : list F) :
  status d = 0%Z -> within_budget m d it ->
  exists d' it' s',
    step U self prob e fuel (next_time, d, it, s, state_vec, times)
    = Some (next_time, d', it', s', state_vec, times) /\
    within_budget m d' it' /\ (num_steps it < num_steps it')%Z.
Proof using Hbudget Hm Hfuel.
  intros Hs Hin. unfold step.
  destruct (retry_loop_total
              (step_entry self prob (next_time, d, it, s, state_vec, times)))
    as ([[[a' d'] it'] s'] & Hrun & Hin' & Hlt & _).
  - unfold step_entry, refresh_jacobian, clamp_to_next_time, maybe_step_cond.
    cbn [status negb andb]. rewrite Hs. reflexivity.
  - exact Hin.
  - rewrite Hrun. exists d', it', s'. split; [reflexivity|].
    split; [exact Hin'|exact Hlt].
Qed.

(** The loop of [advance_to_solution_time] ends, with the solver at the
    target time unless the status is no longer 0. *)
Lemma step_loop_total (next_time : F) (d : _BDFDiagnostics)
    (it : _BDFIterand) (s : _BDFSolverInternalState) (state_vec : list Vec)
    (times : list F) :
  within_budget m d it ->
  exists d' it' s',
    while_loop fuel step_cond (step U self prob e fuel)
      (next_time, d, it, s, state_vec, times)
    = Some (next_time, d', it', s', state_vec, times) /\
    within_budget m d' it' /\
    (status d' = 0%Z -> (time it' <? next_time) = false).
Proof using Hbudget Hm Hfuel.
  intros Hin.
  destruct
    (while_loop_total step_cond (step U self prob e fuel)
       (fun x : step_state =>
          let '(nt, d', it', _, sv, ts) := x in
          nt = next_time /\ sv = state_vec /\ ts = times /\
          within_budget m d' it')
       (fun x : step_state =>
          let '(_, d', it', _, _, _) := x in attempts_left d' it'))
    with (fuel := fuel) (x := (next_time, d, it, s, state_vec, times))
    as ([[[[[nt d'] it'] s'] sv] ts] & Hrun & (-> & -> & -> & Hin') & Hc).
  - intros [[[[[nt dx] itx] sx] svx] tsx] (-> & -> & -> & Hx) Hcx.
    unfold step_cond in Hcx. apply andb_true_iff in Hcx.
    destruct Hcx as [_ Hsx]. apply Z.eqb_eq in Hsx.
    destruct (step_total next_time dx itx sx state_vec times Hsx Hx)
      as (d1 & it1 & s1 & Hstep & Hin1 & Hlt).
    exists (next_time, d1, it1, s1, state_vec, times).
    split; [exact Hstep|]. split; [split; [|split; [|split]]; auto|].
    cbv beta iota. rewrite Hsx. cbn [Z.eqb]. destruct Hx as (_ & Hnx & Hle).
    specialize (Hle Hsx). destruct Hin1 as (_ & Hn1 & _).
    destruct (status d1 =? 0)%Z; lia.
  - split; [|split; [|split]]; auto.
  - pose proof (attempts_left_le d it Hin). cbv beta iota in *. lia.
  - exists d', it', s'. split; [exact Hrun|]. split; [exact Hin'|].
    intros Hs. unfold step_cond in Hc. rewrite Hs in Hc. cbn [Z.eqb] in Hc.
    rewrite andb_true_r in Hc. exact Hc.
Qed.

(** [advance_to_solution_time] returns: it writes slot [n] of both output
    arrays, whatever the status, and moves to the next index. *)
Lemma advance_total (n : nat) (d : _BDFDiagnostics) (it : _BDFIterand)
    (s : _BDFSolverInternalState) (state_vec : list Vec) (times : list F) :
  within_budget m d it ->
  exists d' it' s',
    advance_to_solution_time U self prob e fuel
      (n, d, it, s, state_vec, times)
    = Some (S n, d', it', s',
            <[n := jnp_index [] (backward_differences s') 0]> state_vec,
            <[n := nth_solution_time prob n]> times) /\
    within_budget m d' it' /\
    (status d' = 0%Z -> (time it' <? nth_solution_time prob n) = false).
Proof using Hbudget Hm Hfuel.
  intros Hin. unfold advance_to_solution_time.
  destruct (step_loop_total (nth_solution_time prob n) d it s state_vec times
              Hin) as (d' & it' & s' & Hrun & Hin' & Hreach).
  rewrite Hrun. exists d', it', s'. split; [reflexivity|].
  split; assumption.
Qed.

End Budget.

(** * The output driver under a step budget *)

Section SolveBudget.
Context {SC : Scalar} (U : bdf_util.t) (self : BDF) (prob : Problem)
  (m : Z) (fuel : nat).
Hypothesis Hbudget : max_num_steps self = at_most m.
Hypothesis Hm : (0 <= m < Int64.max_int)%Z.
Hypothesis Hfuel : (Z.to_nat m + 1 <= fuel)%nat.
Hypothesis Htimes : (length (solution_times prob) <= fuel)%nat.
Local Open Scope scalar_scope.

Local Abbreviation table := (_get_common_params_and_coefficients U self).
Local Abbreviation num_solution_times := (length (solution_times prob)).

(** What every turn of the loop of [_solve] keeps. *)
Local Abbreviation solve_invariant :=
  (fun st : solve_state =>
     let k := loop_index st in
     solve_turns U self prob fuel k = Some st /\
     within_budget m (loop_diagnostics st) (loop_iterand st) /\
     (k = O -> status (loop_diagnostics st) = 0%Z) /\
     (k <= num_solution_times)%nat /\
     length (loop_states st) = num_solution_times /\
     length (loop_times st) = num_solution_times /\
     (forall i : nat,
        (k <= i < num_solution_times)%nat ->
        loop_times st !! i = Some fzero /\
        loop_states st !! i = Some (zero_state prob)) /\
     (forall i : nat,
        (i < k)%nat ->
        exists sti : solve_state,
          slot_written U self prob fuel i (loop_times st) (loop_states st)
            sti /\
          (status (loop_diagnostics sti) = 0%Z ->
           (time (loop_iterand sti) <? nth_solution_time prob i) = false) /\
          (S i < k -> status (loop_diagnostics sti) = 0%Z)%nat)).

Lemma solve_invariant_initial :
  solve_invariant (initial_solve_state U self prob).
Proof using Hm.
  clear Hfuel Htimes Hbudget.
  unfold initial_solve_state, loop_index, loop_diagnostics, loop_iterand,
    loop_states, loop_times. cbn [fst snd].
  split; [reflexivity|]. split.
  { unfold within_budget. cbn [status num_steps]. lia. }
  split; [reflexivity|]. split; [lia|].
  split; [apply length_replicate|]. split; [apply length_replicate|].
  split.
  - intros i Hi. split; apply lookup_replicate_2; lia.
  - intros i Hi. lia.
Qed.

Lemma solve_invariant_step (st : solve_state) :
  solve_invariant st ->
  advance_to_solution_time_cond prob st = true ->
  exists st',
    advance_to_solution_time U self prob table fuel st = Some st' /\
    solve_invariant st' /\
    (num_solution_times - loop_index st'
     < num_solution_times - loop_index st)%nat.
Proof using Hbudget Hm Hfuel.
  clear Htimes.
  destruct st as [[[[[k d] it] s] sv] ts].
  unfold loop_index, loop_diagnostics, loop_iterand, loop_states, loop_times,
    advance_to_solution_time_cond.
  cbn [fst snd].
  intros (Hturn & Hin & _ & Hk & Hsv & Hts & Hzero & Hslots) Hc.
  apply andb_true_iff in Hc. destruct Hc as [Hlt Hs0].
  apply Nat.ltb_lt in Hlt. apply Z.eqb_eq in Hs0.
  destruct (advance_total U self prob table m fuel Hbudget Hm Hfuel k d it s
              sv ts Hin) as (d' & it' & s' & Hadv & Hin' & Hreach).
  eexists. split; [exact Hadv|]. cbn [fst snd]. split; [|lia].
  split.
  { cbn [solve_turns]. rewrite Hturn. exact Hadv. }
  split; [exact Hin'|]. split; [intros [=]|]. split; [lia|].
  split; [rewrite length_insert; exact Hsv|].
  split; [rewrite length_insert; exact Hts|]. split.
  - intros i Hi. rewrite !list_lookup_insert_ne by lia. apply Hzero. lia.
  - intros i Hi. destruct (decide (i = k)) as [->|Hne].
    + exists (S k, d', it', s',
              <[k := jnp_index [] (backward_differences s') 0]> sv,
              <[k := nth_solution_time prob k]> ts).
      unfold slot_written, loop_internal_state, loop_diagnostics,
        loop_iterand. cbn [fst snd].
      split; [|split; [exact Hreach|lia]].
      split; [cbn [solve_turns]; rewrite Hturn; exact Hadv|].
      unfold Vec in *. split; apply list_lookup_insert_eq; lia.
    + destruct (Hslots i ltac:(lia)) as (sti & (Hi1 & Hi2 & Hi3) & Hi4 & Hi5).
      exists sti. split; [|split; [exact Hi4|]].
      * split; [exact Hi1|]. rewrite !list_lookup_insert_ne by lia.
        split; assumption.
      * intros Hlast. destruct (decide (S i = k)) as [Heq|Hneq].
        -- rewrite Heq, Hturn in Hi1. injection Hi1 as <-.
           unfold loop_diagnostics. cbn [fst snd]. exact Hs0.
        -- apply Hi5. lia.
Qed.

(** With a step budget the loop of [_solve] ends, and what it ends with
    obeys the invariant and fails the loop condition. *)
Lemma solve_loop_total :
  exists final : solve_state,
    solve_loop U self prob fuel = Some final /\
    solve_invariant final /\
    advance_to_solution_time_cond prob final = false.
Proof using Hbudget Hm Hfuel Htimes.
  unfold solve_loop.
  apply (while_loop_total (advance_to_solution_time_cond prob)
           (advance_to_solution_time U self prob table fuel)
           solve_invariant
           (fun st => (num_solution_times - loop_index st)%nat)).
  - intros st Hst Hc. exact (solve_invariant_step st Hst Hc).
  - exact solve_invariant_initial.
  - lia.
Qed.

(** C4 (as the code has it).  With a step budget [_solve] returns, with
    status 0 or -1.  With status 0 every slot holds a valid pair.  With
    status -1, reported while the loop advanced to output time [k - 1]:
    every slot before [k - 1] holds a valid pair, the requested time and the
    state estimate recorded with the solver time not before it; slot
    [k - 1] itself is written all the same, with its requested time and the
    state estimate the solver stopped at, whether that time was reached or
    not; and every slot after it holds its initial zeros in both arrays. *)
Theorem budget_exhaustion_outputs :
  exists (final : solve_state) (res : Results),
    solve_loop U self prob fuel = Some final /\
    _solve U self prob fuel = Some res /\
    res = mk_Results (loop_times final) (loop_states final)
            (loop_diagnostics final) (loop_internal_state final) /\
    (status (diagnostics res) = 0%Z \/ status (diagnostics res) = (-1)%Z) /\
    (status (diagnostics res) = 0%Z ->
     forall i : nat,
       (i < num_solution_times)%nat ->
       slot_reached U self prob fuel i (times res) (states res)) /\
    (status (diagnostics res) = (-1)%Z ->
     let k := loop_index final in
     (1 <= k <= num_solution_times)%nat /\
     (forall i : nat,
        (S i < k)%nat ->
        slot_reached U self prob fuel i (times res) (states res)) /\
     slot_written U self prob fuel (k - 1) (times res) (states res) final /\
     (forall i : nat,
        (k <= i < num_solution_times)%nat ->
        times res !! i = Some fzero /\
        states res !! i = Some (zero_state prob))).
Proof using Hbudget Hm Hfuel Htimes.
  destruct solve_loop_total as (final & Hrun & Hinv & Hc).
  exists final,
    (mk_Results (loop_times final) (loop_states final)
       (loop_diagnostics final) (loop_internal_state final)).
  split; [exact Hrun|]. unfold _solve. rewrite Hrun.
  destruct final as [[[[[k d] it] s] sv] ts].
  unfold loop_index, loop_diagnostics, loop_iterand, loop_states, loop_times,
    loop_internal_state, advance_to_solution_time_cond in *.
  cbn [fst snd] in *.
  destruct Hinv as (Hturn & Hin & Hk0 & Hk & Hsv & Hts & Hzero & Hslots).
  split; [reflexivity|]. split; [reflexivity|]. cbn [diagnostics times states].
  split; [exact (proj1 Hin)|]. split.
  - intros Hs i Hi. rewrite Hs in Hc. cbn [Z.eqb] in Hc.
    rewrite andb_true_r in Hc. apply Nat.ltb_ge in Hc.
    destruct (Hslots i ltac:(lia)) as (sti & Hw & Hreach & Hlast).
    exists sti. split; [exact Hw|].
    assert (Hsi : status sti.1.1.1.1.2 = 0%Z).
    { destruct (decide (S i = k)) as [Heq|Hne]; [|apply Hlast; lia].
      destruct Hw as (Hw & _). rewrite Heq, Hturn in Hw.
      injection Hw as <-. exact Hs. }
    split; [exact Hsi|exact (Hreach Hsi)].
  - intros Hs.
    assert (Hk1 : (1 <= k)%nat).
    { destruct k as [|k]; [|lia]. rewrite Hk0 in Hs by reflexivity.
      discriminate. }
    split; [lia|]. split; [|split].
    + intros i Hi. destruct (Hslots i ltac:(lia)) as (sti & Hw & Hreach & Hlast).
      exists sti. split; [exact Hw|].
      pose proof (Hlast Hi) as Hsi. split; [exact Hsi|exact (Hreach Hsi)].
    + destruct (Hslots (k - 1)%nat ltac:(lia)) as (sti & Hw & _).
      destruct Hw as (Hw & Ht & Hv).
      replace (S (k - 1)) with k in Hw by lia. rewrite Hturn in Hw.
      injection Hw as <-. split; [|split; assumption].
      replace (S (k - 1)) with k by lia. exact Hturn.
    + exact Hzero.
Qed.

End SolveBudget.

(** * The attempts counted *)

Section Counting.
Context {SC : Scalar} (U : bdf_util.t) (self : BDF) (prob : Problem)
  (e : Coefficients).

Local Abbreviation attempt := (maybe_step U self prob e).
Local Abbreviation retry_loop :=
  (fun fuel => while_loop fuel maybe_step_cond (fun s => Some (attempt s))).

(** Attempts in a row, whatever their outcomes, advance the counter by
    their number. *)
Lemma attempts_counted (st : attempt_state) (k : nat) :
  (Int64.min_int <= num_steps (iterand_of st))%Z ->
  (num_steps (iterand_of st) + Z.of_nat k <= Int64.max_int)%Z ->
  num_steps (iterand_of (Nat.iter k attempt st))
  = (num_steps (iterand_of st) + Z.of_nat k)%Z.
Proof.
  intros Hlo. induction k as [|k IH]; intros Hhi.
  - cbn. lia.
  - rewrite Nat.iter_succ. specialize (IH ltac:(lia)).
    destruct (Nat.iter k attempt st) as [[[a d] it] s].
    rewrite maybe_step_eq. unfold iterand_of in *. cbn [fst snd num_steps] in *.
    rewrite int64_add_1; lia.
Qed.

(** C9 (as the code has it).  Every invocation of [maybe_step] advances
    [num_steps] by exactly one, whether the attempt is accepted, rejected or
    did not converge (the counter being an int64 below its largest value),
    so that [k] attempts in a row advance it by [k].  The budget is
    therefore a budget of attempts, not of accepted steps, and it is
    overrun by one: with [max_num_steps = m], the retry loop of [step]
    entered with the counter at most [m] ends after at least one attempt
    with the counter at most [m + 1], and a whole run of [_solve] ends with
    the counter, which started at 0, at most [m + 1]: the attempt made with
    the counter at [m] is the last. *)
Theorem every_attempt_is_counted :
  (forall st : attempt_state,
     (Int64.min_int <= num_steps (iterand_of st) < Int64.max_int)%Z ->
     num_steps (iterand_of (attempt st))
     = (num_steps (iterand_of st) + 1)%Z) /\
  (forall (st : attempt_state) (k : nat),
     (Int64.min_int <= num_steps (iterand_of st))%Z ->
     (num_steps (iterand_of st) + Z.of_nat k <= Int64.max_int)%Z ->
     num_steps (iterand_of (Nat.iter k attempt st))
     = (num_steps (iterand_of st) + Z.of_nat k)%Z) /\
  (forall (m : Z) (fuel : nat) (st : attempt_state),
     max_num_steps self = at_most m ->
     (0 <= m < Int64.max_int)%Z ->
     (Z.to_nat m + 1 <= fuel)%nat ->
     maybe_step_cond st = true ->
     (0 <= num_steps (iterand_of st) <= m)%Z ->
     exists st' : attempt_state,
       retry_loop fuel st = Some st' /\
       (num_steps (iterand_of st) < num_steps (iterand_of st') <= m + 1)%Z) /\
  (forall (m : Z) (fuel : nat),
     max_num_steps self = at_most m ->
     (0 <= m < Int64.max_int)%Z ->
     (Z.to_nat m + 1 <= fuel)%nat ->
     (length (solution_times prob) <= fuel)%nat ->
     exists final : solve_state,
       solve_loop U self prob fuel = Some final /\
       (0 <= num_steps (loop_iterand final) <= m + 1)%Z).
Proof.
  split; [|split; [|split]].
  - intros st Hn. apply (attempts_counted st 1); lia.
  - exact attempts_counted.
  - intros m fuel st Hb Hm Hfuel Hc Hn.
    destruct (retry_loop_total U self prob e m fuel Hb Hm Hfuel st Hc)
      as (st' & Hrun & (_ & Hn' & _) & Hlt & _).
    + unfold within_budget. split; [|split; [lia|lia]].
      left. destruct st as [[[a d] it] s].
      unfold maybe_step_cond, diagnostics_of in *. cbn [fst snd] in *.
      apply andb_true_iff in Hc. lia.
    + exists st'. split; [exact Hrun|lia].
  - intros m fuel Hb Hm Hfuel Htimes.
    destruct (solve_loop_total U self prob m fuel Hb Hm Hfuel Htimes)
      as (final & Hrun & (_ & (_ & Hn & _) & _) & _).
    exists final. split; [exact Hrun|exact Hn].
Qed.

End Counting.

(** * The coefficient table *)

Section CoefficientTableFacts.
Context {SC : Scalar}.
Local Open Scope scalar_scope.

Lemma lookup_map {A B : Type} (f : A -> B) (l : list A) (i : nat) :
  map f l !! i = f <$> (l !! i).
Proof.
  revert i. induction l as [|x l IH]; intros [|i]; cbn; try reflexivity.
  apply IH.
Qed.

(** C8. For a base coefficient vector and the constants of [bdf_util]
    (the reciprocal sums, and the order indices 0 to 5), the tables of
    [_get_coefficients] hold at every index [k] below 6
    [1 / ((1 - bdf_coefficients[k]) * RECIPROCAL_SUMS[k])] and
    [bdf_coefficients[k] * RECIPROCAL_SUMS[k] + 1 / (k + 1)].  The tables
    depend on nothing but the base vector and these constants.  (A base
    coefficient equal to one needs no exclusion: the division is the
    scalar's own.) *)
Theorem coefficient_table (U : bdf_util.t) (bdf_coefficients : list F)
    (k : nat) (b r : F) :
  bdf_util.ORDERS U = order_indices ->
  bdf_coefficients !! k = Some b ->
  bdf_util.RECIPROCAL_SUMS U !! k = Some r ->
  (k < 6)%nat ->
  (_get_coefficients U bdf_coefficients).1 !! k
    = Some (fone / ((fone - b) * r)) /\
  (_get_coefficients U bdf_coefficients).2 !! k
    = Some (b * r + fone / of_int (Z.of_nat k + 1)) /\
  (forall U' : bdf_util.t,
     bdf_util.ORDERS U' = bdf_util.ORDERS U ->
     bdf_util.RECIPROCAL_SUMS U' = bdf_util.RECIPROCAL_SUMS U ->
     _get_coefficients U' bdf_coefficients
     = _get_coefficients U bdf_coefficients).
Proof.
  intros Hord Hb Hr Hk. unfold _get_coefficients. cbn [fst snd].
  split; [|split].
  - rewrite lookup_map, lookup_zip_with, lookup_map, Hb, Hr. reflexivity.
  - rewrite !lookup_zip_with, lookup_map, Hb, Hr, Hord. cbn [mbind option_bind].
    do 6 (destruct k as [|k]; [reflexivity|]). lia.
  - intros U' -> ->. reflexivity.
Qed.

End CoefficientTableFacts.

(** * The bounds on the step size *)

Section StepSizeBounds.
Context {SC : Scalar} (U : bdf_util.t) (self : BDF)
  (prob : Problem) (e : Coefficients) (power : F -> F -> F).
Local Open Scope scalar_scope.

Local Abbreviation attempt := (maybe_step U self prob e).
Local Abbreviation lo := (min_step_size_factor self).
Local Abbreviation hi := (max_step_size_factor self).

(** The factor of the step-size formula for an order and an error ratio. *)
Local Abbreviation factor_of k r :=
  (clamp (safety_factor self * power r (of_int (-1) / of_int (k + 1)))
     lo hi).

(** The clamp stays within its bounds. *)
Lemma clamp_bounds (x a b : F) :
  (a <? a) = false -> (b <? b) = false -> (b <? a) = false ->
  (clamp x a b <? a) = false /\ (b <? clamp x a b) = false.
Proof.
  intros Haa Hbb Hab. unfold clamp. destruct (x <? a) eqn:Hx.
  - rewrite Hab. split; [exact Haa|exact Hab].
  - destruct (b <? x) eqn:Hy.
    + split; [exact Hab|exact Hbb].
    + split; [exact Hx|exact Hy].
Qed.

(** A number that is not below a positive one is not below zero. *)
Lemma not_below_positive `{!MonotoneScalar SC} (x a : F) :
  (fzero <? a) = true -> (x <? a) = false -> (x <? fzero) = false.
Proof.
  intros Ha Hx. destruct (x <? fzero) eqn:E; [|reflexivity].
  rewrite (flt_trans x fzero a E Ha) in Hx. discriminate.
Qed.

(** C3 (as the code has it).  Let an attempt be accepted, or converge and
    be rejected, and leave a step-size update pending.  Then the pending
    step size is what [bdf_util.next_step_size] returns for the step size
    the attempt was made with, the order the attempt returns and the error
    ratio its scan ends with; with the step-size formula it is that step
    size times a factor that is neither below [min_step_size_factor] nor
    above [max_step_size_factor] (this much for any scalar, binary64
    included, whose comparison finds neither factor below itself nor [max]
    below [min]); and under the laws that binary64 and exact arithmetic
    share, with a step size that is not below zero, it is neither below
    [min_step_size_factor] times that step size nor above
    [max_step_size_factor] times it.  Nothing bounds the cut of the step
    driver or the shrink after a failed corrector.
    Under the same laws, with [0 < min_step_size_factor], a Newton factor
    that is not below zero and [1] not below zero, an attempt made from
    step sizes that are not below zero is made with a step size that is not
    below zero and leaves a pending one that is not below zero, and the step
    driver keeps the pending step size so when it cuts it to the distance
    to a target time that lies ahead.  No step size is said to be above
    zero: a product underflows. *)
Theorem step_size_bounds (st : attempt_state) :
  bdf_util.next_step_size U = next_step_size_formula power ->
  (fnan <? fone) = false ->
  (lo <? lo) = false -> (hi <? hi) = false -> (hi <? lo) = false ->
  let st' := attempt st in
  let h := step_size (internal_state_of st') in
  let k := order (internal_state_of st') in
  let r :=
    (attempt_scan U self prob e (iterand_of st) (internal_state_of st)).2 in
  let pending := new_step_size (iterand_of st') in
  (accepted_of st' = true \/
   newton_converged
     (attempt_newton U self prob e (iterand_of st) (internal_state_of st))
   = true ->
   should_update_step_size (iterand_of st') = true ->
   pending = bdf_util.next_step_size U h k r (safety_factor self) lo hi /\
   pending = h * factor_of k r /\
   (factor_of k r <? lo) = false /\ (hi <? factor_of k r) = false /\
   (MonotoneScalar SC -> (h <? fzero) = false ->
    (pending <? h * lo) = false /\ (h * hi <? pending) = false)) /\
  (MonotoneScalar SC ->
   (fzero <? lo) = true ->
   (newton_step_size_factor self <? fzero) = false ->
   (fone <? fzero) = false ->
   (step_size (internal_state_of st) <? fzero) = false ->
   (new_step_size (iterand_of st) <? fzero) = false ->
   (h <? fzero) = false /\ (pending <? fzero) = false /\
   (forall next_time : F,
      (time (iterand_of st) <? next_time) = true ->
      (new_step_size (clamp_to_next_time next_time (iterand_of st))
       <? fzero) = false)).
Proof.
  destruct st as [[[a d] it] s]. unfold iterand_of, internal_state_of,
    accepted_of. cbn [fst snd].
  intros Hf Hnan Hlo Hhi Hle. cbv zeta.
  rewrite maybe_step_eq. cbn [fst snd step_size new_step_size
    should_update_step_size order].
  split.
  - intros Hconv Hup.
    assert (Hp :
      (if attempt_adapts U self prob e it s
       then bdf_util.next_step_size U (attempt_step_size it s)
              (attempt_scan U self prob e it s).1
              (attempt_scan U self prob e it s).2 (safety_factor self) lo hi
       else if newton_converged (attempt_newton U self prob e it s) &&
               negb (attempt_accepted U self prob e it s)
       then bdf_util.next_step_size U (attempt_step_size it s) (order s)
              (attempt_error_ratio U self prob e it s) (safety_factor self)
              lo hi
       else attempt_step_size it s *
            (if negb (newton_converged (attempt_newton U self prob e it s)) &&
                jacobian_is_up_to_date it
             then newton_step_size_factor self else fone))
      = bdf_util.next_step_size U (attempt_step_size it s)
          (attempt_scan U self prob e it s).1
          (attempt_scan U self prob e it s).2 (safety_factor self) lo hi).
    { destruct (attempt_adapts U self prob e it s) eqn:Had; [reflexivity|].
      rewrite attempt_scan_eq, Had. cbn [fst snd].
      destruct (newton_converged (attempt_newton U self prob e it s)) eqn:Hc.
      - cbn [negb andb orb] in Hup |- *.
        destruct (attempt_accepted U self prob e it s); cbn [negb] in Hup |- *;
          [discriminate|reflexivity].
      - destruct Hconv as [Hacc|Hconv]; [|discriminate].
        rewrite (failed_newton_rejected U self prob e it s Hnan Hc) in Hacc.
        discriminate. }
    rewrite Hp.
    destruct (clamp_bounds
                (safety_factor self *
                 power (attempt_scan U self prob e it s).2
                   (of_int (-1) /
                    of_int ((attempt_scan U self prob e it s).1 + 1)))
                lo hi Hlo Hhi Hle) as [Hc1 Hc2].
    split; [reflexivity|]. rewrite Hf. unfold next_step_size_formula.
    split; [reflexivity|]. split; [exact Hc1|]. split; [exact Hc2|].
    intros L Hh. split; apply fmul_le_mono; assumption.
  - intros L H0 Hn H1 Hs Hp.
    assert (Hh : (attempt_step_size it s <? fzero) = false).
    { unfold attempt_step_size. destruct (should_update_step_size it);
        assumption. }
    assert (Hformula : forall (k : Z) (r : F),
              (bdf_util.next_step_size U (attempt_step_size it s) k r
                 (safety_factor self) lo hi <? fzero) = false).
    { intros k r. rewrite Hf. unfold next_step_size_formula.
      apply fmul_not_below_zero; [exact Hh|].
      apply (not_below_positive _ lo); [exact H0|].
      apply clamp_bounds; assumption. }
    split; [exact Hh|]. split.
    + destruct (attempt_adapts U self prob e it s); [apply Hformula|].
      destruct (newton_converged _ && negb _); [apply Hformula|].
      apply fmul_not_below_zero; [exact Hh|].
      destruct (negb _ && _); [exact Hn|exact H1].
    + intros next_time Hahead. unfold clamp_to_next_time.
      cbn [new_step_size time].
      destruct (flt (next_time - time it) (new_step_size it)).
      * apply fsub_not_below_zero. exact Hahead.
      * exact Hp.
Qed.

End StepSizeBounds.

(** The rationals obey the laws. *)
Section ExactLaws.
Import Exact.

Lemma exact_lt_iff (a b : Q) : lt a b = true <-> (a < b)%Q.
Proof.
  unfold lt. rewrite negb_true_iff, <- not_true_iff_false, Qle_bool_iff.
  split; [apply Qnot_le_lt | apply Qlt_not_le].
Qed.

Lemma exact_le_iff (a b : Q) : lt b a = false <-> (a <= b)%Q.
Proof.
  unfold lt. rewrite negb_false_iff, Qle_bool_iff. reflexivity.
Qed.

Lemma exact_monotone : MonotoneScalar Exact.scalar.
Proof.
  split; cbn [F flt fzero fone fmul fsub Exact.scalar].
  - intros x y z Hxy Hyz. apply exact_lt_iff.
    apply exact_lt_iff in Hxy, Hyz. lra.
  - intros s x y Hs Hxy. apply exact_le_iff.
    apply exact_le_iff in Hs, Hxy.
    rewrite (Qmult_comm s x), (Qmult_comm s y).
    apply Qmult_le_compat_r; assumption.
  - intros x y Hx Hy. apply exact_le_iff.
    apply exact_le_iff in Hx, Hy. apply Qmult_le_0_compat; assumption.
  - intros x y Hxy. apply exact_le_iff. apply exact_lt_iff in Hxy. lra.
Qed.

End ExactLaws.

(** * What a whole run keeps *)

(** An index within range reads the list entry. *)
Lemma jnp_index_lookup {A : Type} (d : A) (l : list A) (i : nat) :
  (i < length l)%nat -> l !! i = Some (jnp_index d l (Z.of_nat i)).
Proof.
  intros Hi. unfold jnp_index.
  destruct (Z.ltb_spec (Z.of_nat i) 0) as [Hneg|_]; [lia|].
  replace (Z.to_nat (Z.max 0 (Z.min (Z.of_nat i) (Z.of_nat (length l) - 1))))
    with i by lia.
  destruct (lookup_lt_is_Some_2 l i Hi) as [x Hx].
  rewrite Hx. f_equal. symmetry. apply nth_lookup_Some with (d := d) in Hx.
  exact Hx.
Qed.

Section RunInvariant.
Context {SC : Scalar} (U : bdf_util.t) (self : BDF) (prob : Problem)
  (e : Coefficients)
  (I : _BDFDiagnostics -> _BDFIterand -> _BDFSolverInternalState -> Prop).
Local Open Scope scalar_scope.

Local Abbreviation attempt := (maybe_step U self prob e).
Local Abbreviation retry_loop :=
  (fun fuel => while_loop fuel maybe_step_cond (fun s => Some (attempt s))).
Local Abbreviation holds :=
  (fun st : attempt_state =>
     I (diagnostics_of st) (iterand_of st) (internal_state_of st)).

(** The property survives the first attempt of a call of [step] and every
    further attempt of its retry loop. *)
Hypothesis I_first :
  forall (st : step_state),
    status st.1.1.1.1.2 = 0%Z -> I st.1.1.1.1.2 st.1.1.1.2 st.1.1.2 ->
    holds (attempt (step_entry self prob st)).
Hypothesis I_next :
  forall st : attempt_state,
    maybe_step_cond st = true -> holds st -> holds (attempt st).

Lemma step_entry_cond (st : step_state) :
  status st.1.1.1.1.2 = 0%Z ->
  maybe_step_cond (step_entry self prob st) = true.
Proof using Type.
  destruct st as [[[[[nt d] it] s] sv] ts]. cbn [fst snd]. intros Hs.
  unfold step_entry, refresh_jacobian, clamp_to_next_time, maybe_step_cond.
  cbn [status negb andb]. rewrite Hs. reflexivity.
Qed.

(** What [step] returns keeps the property, the target time and the output
    arrays. *)
Lemma step_keeps (fuel : nat) (nt : F) (d : _BDFDiagnostics)
    (it : _BDFIterand) (s : _BDFSolverInternalState) (sv : list Vec)
    (ts : list F) (st' : step_state) :
  status d = 0%Z -> I d it s ->
  step U self prob e fuel (nt, d, it, s, sv, ts) = Some st' ->
  exists d' it' s', st' = (nt, d', it', s', sv, ts) /\ I d' it' s'.
Proof using I_first I_next.
  intros Hs HI. unfold step.
  pose proof (step_entry_cond (nt, d, it, s, sv, ts) Hs) as Hc.
  destruct fuel as [|f]; cbn [while_loop]; rewrite Hc; [discriminate|].
  destruct (while_loop f _ _ _) as [[[[a1 d1] it1] s1]|] eqn:Hloop;
    [|discriminate].
  intros [= <-]. exists d1, it1, s1. split; [reflexivity|].
  apply (while_loop_invariant maybe_step_cond (fun s => Some (attempt s))
           holds) in Hloop.
  - exact (proj1 Hloop).
  - intros x y Hx Hcx [= <-]. exact (I_next x Hcx Hx).
  - exact (I_first (nt, d, it, s, sv, ts) Hs HI).
Qed.

(** So does the loop of [advance_to_solution_time], which ends with the
    solver at the target time unless the status is no longer 0. *)
Lemma step_loop_keeps (fuel : nat) (nt : F) (d : _BDFDiagnostics)
    (it : _BDFIterand) (s : _BDFSolverInternalState) (sv : list Vec)
    (ts : list F) (st' : step_state) :
  I d it s ->
  while_loop fuel step_cond (step U self prob e fuel) (nt, d, it, s, sv, ts)
  = Some st' ->
  exists d' it' s',
    st' = (nt, d', it', s', sv, ts) /\ I d' it' s' /\
    (status d' = 0%Z -> (time it' <? nt) = false).
Proof using I_first I_next.
  intros HI Hrun.
  apply (while_loop_invariant step_cond (step U self prob e fuel)
           (fun x : step_state =>
              exists d' it' s', x = (nt, d', it', s', sv, ts) /\ I d' it' s'))
    in Hrun.
  - destruct Hrun as [(d' & it' & s' & -> & HI') Hc].
    exists d', it', s'. split; [reflexivity|]. split; [exact HI'|].
    intros Hs. unfold step_cond in Hc. rewrite Hs in Hc. cbn [Z.eqb] in Hc.
    rewrite andb_true_r in Hc. exact Hc.
  - intros x y (dx & itx & sx & -> & Hx) Hcx Hstep.
    unfold step_cond in Hcx. apply andb_true_iff in Hcx.
    destruct Hcx as [_ Hsx]. apply Z.eqb_eq in Hsx.
    exact (step_keeps fuel nt dx itx sx sv ts y Hsx Hx Hstep).
  - exists d, it, s. split; [reflexivity|exact HI].
Qed.

(** [advance_to_solution_time] keeps the property and writes slot [n] of
    both output arrays. *)
Lemma advance_keeps (fuel : nat) (n : nat) (d : _BDFDiagnostics)
    (it : _BDFIterand) (s : _BDFSolverInternalState) (sv : list Vec)
    (ts : list F) (st' : solve_state) :
  I d it s ->
  advance_to_solution_time U self prob e fuel (n, d, it, s, sv, ts)
  = Some st' ->
  exists d' it' s',
    st' = (S n, d', it', s',
           <[n := jnp_index [] (backward_differences s') 0]> sv,
           <[n := nth_solution_time prob n]> ts) /\
    I d' it' s' /\
    (status d' = 0%Z -> (time it' <? nth_solution_time prob n) = false).
Proof using I_first I_next.
  intros HI. unfold advance_to_solution_time.
  destruct (while_loop fuel _ _ _) as [st1|] eqn:Hloop; [|discriminate].
  destruct (step_loop_keeps fuel _ d it s sv ts st1 HI Hloop)
    as (d' & it' & s' & -> & HI' & Hreach).
  intros [= <-]. exists d', it', s'. split; [reflexivity|].
  split; assumption.
Qed.

End RunInvariant.

Section SolveInvariant.
Context {SC : Scalar} (U : bdf_util.t) (self : BDF) (prob : Problem)
  (I : _BDFDiagnostics -> _BDFIterand -> _BDFSolverInternalState -> Prop).
Local Open Scope scalar_scope.

Local Abbreviation table := (_get_common_params_and_coefficients U self).
Local Abbreviation attempt := (maybe_step U self prob table).
Local Abbreviation num_solution_times := (length (solution_times prob)).
Local Abbreviation holds :=
  (fun st : attempt_state =>
     I (diagnostics_of st) (iterand_of st) (internal_state_of st)).

Hypothesis I_first :
  forall (st : step_state),
    status st.1.1.1.1.2 = 0%Z -> I st.1.1.1.1.2 st.1.1.1.2 st.1.1.2 ->
    holds (attempt (step_entry self prob st)).
Hypothesis I_next :
  forall st : attempt_state,
    maybe_step_cond st = true -> holds st -> holds (attempt st).
Hypothesis I_initial :
  let st := initial_solve_state U self prob in
  I (loop_diagnostics st) (loop_iterand st) (loop_internal_state st).

(** What the loop of [_solve] ends with, whenever it ends: the property
    holds, both output arrays have one entry per requested time, the slots
    below the index hold the requested times, and the loop condition is
    false. *)
Lemma solve_loop_keeps (fuel : nat) (final : solve_state) :
  solve_loop U self prob fuel = Some final ->
  I (loop_diagnostics final) (loop_iterand final)
    (loop_internal_state final) /\
  (loop_index final <= num_solution_times)%nat /\
  length (loop_states final) = num_solution_times /\
  length (loop_times final) = num_solution_times /\
  (forall i : nat,
     (i < loop_index final)%nat ->
     loop_times final !! i = solution_times prob !! i) /\
  advance_to_solution_time_cond prob final = false.
Proof using I_first I_next I_initial.
  unfold solve_loop. intros Hrun.
  apply (while_loop_invariant (advance_to_solution_time_cond prob)
           (advance_to_solution_time U self prob table fuel)
           (fun st : solve_state =>
              I (loop_diagnostics st) (loop_iterand st)
                (loop_internal_state st) /\
              (loop_index st <= num_solution_times)%nat /\
              length (loop_states st) = num_solution_times /\
              length (loop_times st) = num_solution_times /\
              (forall i : nat,
                 (i < loop_index st)%nat ->
                 loop_times st !! i = solution_times prob !! i))) in Hrun.
  - destruct Hrun as [(H1 & H2 & H3 & H4 & H5) Hc]. repeat split; assumption.
  - intros [[[[[k d] it] s] sv] ts] y.
    unfold loop_index, loop_diagnostics, loop_iterand, loop_states,
      loop_times, loop_internal_state, advance_to_solution_time_cond.
    cbn [fst snd]. intros (HI & Hk & Hsv & Hts & Hslots) Hc Hadv.
    apply andb_true_iff in Hc. destruct Hc as [Hlt _].
    apply Nat.ltb_lt in Hlt.
    destruct (advance_keeps U self prob table I I_first I_next fuel k d it s
                sv ts y HI Hadv) as (d' & it' & s' & -> & HI' & _).
    cbn [fst snd]. split; [exact HI'|]. split; [lia|].
    split; [rewrite length_insert; exact Hsv|].
    split; [rewrite length_insert; exact Hts|].
    intros i Hi. destruct (decide (i = k)) as [->|Hne].
    + rewrite list_lookup_insert_eq by lia. symmetry.
      apply jnp_index_lookup. exact Hlt.
    + rewrite list_lookup_insert_ne by lia. apply Hslots. lia.
  - unfold initial_solve_state, loop_index, loop_states, loop_times in *.
    cbn [fst snd] in *. split; [exact I_initial|]. split; [lia|].
    split; [apply length_replicate|]. split; [apply length_replicate|].
    intros i Hi. lia.
Qed.

End SolveInvariant.

Section RunFacts.
Context {SC : Scalar} (U : bdf_util.t) (self : BDF) (prob : Problem).
Local Open Scope scalar_scope.

Local Abbreviation table := (_get_common_params_and_coefficients U self).

(** [_solve] returns the records and arrays its loop ends with. *)
Lemma solve_returns (fuel : nat) (res : Results) :
  _solve U self prob fuel = Some res ->
  exists final : solve_state,
    solve_loop U self prob fuel = Some final /\
    res = mk_Results (loop_times final) (loop_states final)
            (loop_diagnostics final) (loop_internal_state final).
Proof.
  unfold _solve.
  destruct (solve_loop U self prob fuel) as [[[[[[k d] it] s] sv] ts]|];
    [|discriminate].
  intros [= <-]. eexists. split; reflexivity.
Qed.

(** An attempt made at an order within [1, max_order] returns an order
    within it, one away from the order it was given at most. *)
Lemma attempt_order_in_range (e : Coefficients) (st : attempt_state) :
  (1 <= order (internal_state_of st) <= max_order self)%Z ->
  let o' := order (internal_state_of (maybe_step U self prob e st)) in
  (1 <= o' <= max_order self)%Z /\
  ((max_order self < Int64.max_int)%Z ->
   (order (internal_state_of st) - 1 <= o'
    <= order (internal_state_of st) + 1)%Z).
Proof.
  destruct st as [[[a d] it] s]. unfold internal_state_of. cbn [fst snd].
  intros Ho. cbv zeta. rewrite maybe_step_eq. cbn [fst snd order].
  rewrite attempt_scan_eq.
  assert (Hclip : forall offset : Z,
            (1 <= proposed_order self s offset <= max_order self)%Z).
  { intros offset. unfold proposed_order, Int64.clip. lia. }
  assert (Hnear : (max_order self < Int64.max_int)%Z ->
            (order s - 1 <= proposed_order self s (-1) <= order s)%Z /\
            (order s <= proposed_order self s 1 <= order s + 1)%Z).
  { intros Hmax. unfold proposed_order, Int64.clip, Int64.add, Int64.wrap.
    unfold Int64.max_int in Hmax.
    rewrite !Z.mod_small by lia. lia. }
  destruct (attempt_adapts U self prob e it s);
    [|cbn [fst snd]; split; [lia|intros _; lia]].
  cbv zeta.
  destruct (flt _ (attempt_error_ratio U self prob e it s));
    cbn [fst snd]; destruct (flt _ _); cbn [fst snd];
    pose proof (Hclip (-1)%Z); pose proof (Hclip 1%Z);
    (split; [lia|intros Hmax; destruct (Hnear Hmax); lia]).
Qed.

(** X1. The integration order never leaves [1, max_order]: an attempt made
    at an order in that range returns an order in it, at most one away
    from the order it was given, and whatever [_solve] returns carries an
    order in that range. *)
Theorem order_stays_in_range :
  (1 <= max_order self)%Z ->
  (forall (e : Coefficients) (st : attempt_state),
     (1 <= order (internal_state_of st) <= max_order self)%Z ->
     (max_order self < Int64.max_int)%Z ->
     let o' := order (internal_state_of (maybe_step U self prob e st)) in
     (1 <= o' <= max_order self)%Z /\
     (order (internal_state_of st) - 1 <= o'
      <= order (internal_state_of st) + 1)%Z) /\
  (forall (fuel : nat) (res : Results),
     _solve U self prob fuel = Some res ->
     (1 <= order (solver_internal_state res) <= max_order self)%Z).
Proof.
  intros Hmax. split.
  - intros e st Ho Hlt. cbv zeta.
    destruct (attempt_order_in_range e st Ho) as [H1 H2].
    split; [exact H1|exact (H2 Hlt)].
  - intros fuel res Hres.
    destruct (solve_returns fuel res Hres) as (final & Hloop & ->).
    cbn [solver_internal_state].
    apply (solve_loop_keeps U self prob
             (fun _ _ s => (1 <= order s <= max_order self)%Z)) in Hloop.
    + exact (proj1 Hloop).
    + intros st _ Ho.
      exact (proj1 (attempt_order_in_range table (step_entry self prob st)
                      ltac:(destruct st as [[[[[nt d] it] s] sv] ts];
                            exact Ho))).
    + intros st _ Ho. exact (proj1 (attempt_order_in_range table st Ho)).
    + cbn. lia.
Qed.

(** X2. The status [_solve] returns is 0 or -1, and with no step budget
    (a [max_num_steps] that no counter value equals, such as
    [numpy.float64('inf')]) it is 0: without a budget [_solve] reports
    no failure, it returns with status 0 or does not return. *)
Theorem status_is_zero_or_minus_one (fuel : nat) (res : Results) :
  _solve U self prob fuel = Some res ->
  (status (diagnostics res) = 0%Z \/ status (diagnostics res) = (-1)%Z) /\
  (max_num_steps self = unbounded -> status (diagnostics res) = 0%Z).
Proof.
  intros Hres.
  destruct (solve_returns fuel res Hres) as (final & Hloop & ->).
  cbn [diagnostics].
  assert (Hattempt : forall st : attempt_state,
            let d' := diagnostics_of (maybe_step U self prob table st) in
            (status d' = 0%Z \/ status d' = (-1)%Z) /\
            (max_num_steps self = unbounded -> status d' = 0%Z)).
  { intros [[[a d] it] s]. cbv zeta. rewrite maybe_step_eq.
    unfold diagnostics_of. cbn [fst snd status].
    destruct (max_num_steps self) as [|m]; cbn [budget_reached].
    - split; [left; reflexivity|reflexivity].
    - destruct (num_steps it =? m)%Z; split; auto; discriminate. }
  apply (solve_loop_keeps U self prob
           (fun d _ _ =>
              (status d = 0%Z \/ status d = (-1)%Z) /\
              (max_num_steps self = unbounded -> status d = 0%Z))) in Hloop.
  - exact (proj1 Hloop).
  - intros st _ _. apply Hattempt.
  - intros st _ _. apply Hattempt.
  - cbn. split; [left; reflexivity|reflexivity].
Qed.

(** X3. Whatever [_solve] returns, both output arrays have one entry per
    requested time; and when the status is 0 the array [times] is the
    array of requested times itself, entry for entry. *)
Theorem recorded_times_are_requested (fuel : nat) (res : Results) :
  _solve U self prob fuel = Some res ->
  length (times res) = length (solution_times prob) /\
  length (states res) = length (solution_times prob) /\
  (status (diagnostics res) = 0%Z -> times res = solution_times prob).
Proof.
  intros Hres.
  destruct (solve_returns fuel res Hres) as (final & Hloop & ->).
  cbn [times states diagnostics].
  apply (solve_loop_keeps U self prob (fun _ _ _ => True)) in Hloop;
    [|intros; exact Logic.I|intros; exact Logic.I|exact Logic.I].
  destruct Hloop as (_ & Hk & Hsv & Hts & Hslots & Hc).
  split; [exact Hts|]. split; [exact Hsv|].
  intros Hs. destruct final as [[[[[k d] it] s] sv] ts].
  unfold loop_index, loop_diagnostics, loop_times, loop_states,
    advance_to_solution_time_cond in *. cbn [fst snd] in *.
  rewrite Hs in Hc. cbn [Z.eqb] in Hc. rewrite andb_true_r in Hc.
  apply Nat.ltb_ge in Hc.
  apply list_eq. intros i.
  destruct (decide (i < length (solution_times prob))%nat) as [Hi|Hi].
  - apply Hslots. lia.
  - rewrite !lookup_ge_None_2 by lia. reflexivity.
Qed.

End RunFacts.

(** * The lazy mode *)

Section LoopsAgree.
Context {A : Type} (cond_fun : A -> bool) (body1 body2 : A -> option A)
  (P : A -> Prop).

(** Two loops whose bodies agree wherever a property holds that the body
    keeps run alike from a state with the property. *)
Lemma while_loop_agree :
  (forall a, P a -> cond_fun a = true -> body1 a = body2 a) ->
  (forall a b, P a -> cond_fun a = true -> body2 a = Some b -> P b) ->
  forall (fuel : nat) (x : A),
    P x ->
    while_loop fuel cond_fun body1 x = while_loop fuel cond_fun body2 x.
Proof.
  intros Hsame Hkeep fuel. induction fuel as [|fuel IH]; intros x Hx; cbn;
    destruct (cond_fun x) eqn:Hc; try reflexivity.
  rewrite (Hsame x Hx Hc). destruct (body2 x) as [b|] eqn:Hb; [|reflexivity].
  apply IH. exact (Hkeep x b Hx Hc Hb).
Qed.

End LoopsAgree.

Section LazyMode.
Context {SC : Scalar} (U : bdf_util.t) (self : BDF) (prob : Problem)
  (lazily : bool).
Local Open Scope scalar_scope.

Local Abbreviation self' := (with_lazy self lazily).
Local Abbreviation stale :=
  (fun (_ : _BDFDiagnostics) (it : _BDFIterand)
       (_ : _BDFSolverInternalState) => jacobian_is_up_to_date it = false).

(** [maybe_step] does not read the lazy mode. *)
Lemma maybe_step_ignores_lazy (e : Coefficients) (st : attempt_state) :
  maybe_step U self' prob e st = maybe_step U self prob e st.
Proof.
  destruct st as [[[a d] it] s]. rewrite !maybe_step_eq. reflexivity.
Qed.

(** No attempt marks the Jacobian up to date. *)
Lemma attempt_keeps_stale (e : Coefficients) (st : attempt_state) :
  jacobian_is_up_to_date (iterand_of st) = false ->
  jacobian_is_up_to_date (iterand_of (maybe_step U self prob e st)) = false.
Proof.
  destruct st as [[[a d] it] s]. unfold iterand_of. cbn [fst snd].
  intros Hst. rewrite maybe_step_eq. cbn [fst snd jacobian_is_up_to_date].
  rewrite Hst. reflexivity.
Qed.

Lemma stale_first (e : Coefficients) (st : step_state) :
  status st.1.1.1.1.2 = 0%Z -> jacobian_is_up_to_date st.1.1.1.2 = false ->
  jacobian_is_up_to_date
    (iterand_of (maybe_step U self prob e (step_entry self prob st))) = false.
Proof.
  destruct st as [[[[[nt d] it] s] sv] ts]. cbn [fst snd]. intros _ Hst.
  apply attempt_keeps_stale. exact Hst.
Qed.

Lemma stale_next (e : Coefficients) (st : attempt_state) :
  maybe_step_cond st = true ->
  jacobian_is_up_to_date (iterand_of st) = false ->
  jacobian_is_up_to_date (iterand_of (maybe_step U self prob e st)) = false.
Proof.
  intros _. apply attempt_keeps_stale.
Qed.

(** With the Jacobian marked stale, [step] does not read the lazy mode
    either. *)
Lemma step_ignores_lazy (e : Coefficients) (fuel : nat) (st : step_state) :
  jacobian_is_up_to_date st.1.1.1.2 = false ->
  step U self' prob e fuel st = step U self prob e fuel st.
Proof.
  destruct st as [[[[[nt d] it] s] sv] ts]. cbn [fst snd]. intros Hst.
  unfold step.
  assert (Hentry : step_entry self' prob (nt, d, it, s, sv, ts)
                   = step_entry self prob (nt, d, it, s, sv, ts)).
  { unfold step_entry, refresh_jacobian, clamp_to_next_time.
    cbn [jacobian_is_up_to_date _evaluate_jacobian_lazily with_lazy].
    rewrite Hst, !andb_false_r. reflexivity. }
  rewrite Hentry.
  rewrite (while_loop_agree maybe_step_cond
             (fun x => Some (maybe_step U self' prob e x))
             (fun x => Some (maybe_step U self prob e x))
             (fun _ => True)); [reflexivity| | |exact Logic.I].
  - intros x _ _. rewrite maybe_step_ignores_lazy. reflexivity.
  - intros; exact Logic.I.
Qed.

Lemma advance_ignores_lazy (e : Coefficients) (fuel : nat)
    (st : solve_state) :
  jacobian_is_up_to_date (loop_iterand st) = false ->
  advance_to_solution_time U self' prob e fuel st
  = advance_to_solution_time U self prob e fuel st.
Proof.
  destruct st as [[[[[n d] it] s] sv] ts]. unfold loop_iterand.
  cbn [fst snd]. intros Hst. unfold advance_to_solution_time.
  rewrite (while_loop_agree step_cond (step U self' prob e fuel)
             (step U self prob e fuel)
             (fun x : step_state =>
                jacobian_is_up_to_date x.1.1.1.2 = false));
    [reflexivity| | |exact Hst].
  - intros x Hx _. apply step_ignores_lazy. exact Hx.
  - intros [[[[[nt dx] itx] sx] svx] tsx] y Hx Hc Hstep.
    cbn [fst snd] in Hx. unfold step_cond in Hc.
    apply andb_true_iff in Hc. destruct Hc as [_ Hs]. apply Z.eqb_eq in Hs.
    destruct (step_keeps U self prob e stale (stale_first e) (stale_next e)
                fuel nt dx itx sx svx tsx y Hs Hx Hstep)
      as (d' & it' & s' & -> & Hst'). exact Hst'.
Qed.

(** X4. The lazy mode has no effect on a run: [_solve] starts with the
    Jacobian marked stale and nothing ever marks it up to date, so the
    Jacobian is evaluated at every call of [step] and [_solve] yields the
    same, for every amount of fuel, whatever
    [_evaluate_jacobian_lazily] is. *)
Theorem lazy_mode_is_inert (fuel : nat) :
  solve_loop U self' prob fuel = solve_loop U self prob fuel /\
  _solve U self' prob fuel = _solve U self prob fuel /\
  (forall final : solve_state,
     solve_loop U self prob fuel = Some final ->
     jacobian_is_up_to_date (loop_iterand final) = false).
Proof.
  assert (Hloop : solve_loop U self' prob fuel = solve_loop U self prob fuel).
  { unfold solve_loop.
    change (_get_common_params_and_coefficients U self')
      with (_get_common_params_and_coefficients U self).
    change (initial_solve_state U self' prob)
      with (initial_solve_state U self prob).
    apply (while_loop_agree (advance_to_solution_time_cond prob) _ _
             (fun st => jacobian_is_up_to_date (loop_iterand st) = false)).
    - intros st Hst _. apply advance_ignores_lazy. exact Hst.
    - intros [[[[[n d] it] s] sv] ts] y Hst _ Hadv.
      unfold loop_iterand in Hst. cbn [fst snd] in Hst.
      destruct (advance_keeps U self prob _ stale (stale_first _)
                  (stale_next _) fuel n d it s sv ts y Hst Hadv)
        as (d' & it' & s' & -> & Hst' & _). exact Hst'.
    - reflexivity. }
  split; [exact Hloop|]. split.
  - unfold _solve. rewrite Hloop. reflexivity.
  - intros final Hfinal.
    apply (solve_loop_keeps U self prob stale) in Hfinal.
    + exact (proj1 Hfinal).
    + apply stale_first.
    + apply stale_next.
    + reflexivity.
Qed.

End LazyMode.

(** * A corrector that does not converge *)

Section NewtonStuck.
Context {SC : Scalar} (U : bdf_util.t) (self : BDF) (prob : Problem)
  (e : Coefficients).
Hypothesis Hnan : (fnan <? fone)%F = false.
Local Open Scope scalar_scope.

Local Abbreviation attempt := (maybe_step U self prob e).
Local Abbreviation retry_loop :=
  (fun fuel => while_loop fuel maybe_step_cond (fun s => Some (attempt s))).
Local Abbreviation stuck := (newton_stuck U self prob e).

(** The corrector is given the same arguments by two attempts that agree on
    the history, the order, the step size, the time and the Jacobian. *)
Lemma attempt_newton_repeats (it it' : _BDFIterand)
    (s s' : _BDFSolverInternalState) :
  should_update_step_size it' = false ->
  jacobian_mat it' = jacobian_mat it ->
  time it' = time it ->
  backward_differences s' = attempt_backward_differences U it s ->
  order s' = order s ->
  step_size s' = attempt_step_size it s ->
  attempt_newton U self prob e it' s' = attempt_newton U self prob e it s.
Proof using Type.
  intros Hup HJ Ht Hbd Ho Hh.
  assert (Hbd' : attempt_backward_differences U it' s'
                 = attempt_backward_differences U it s).
  { unfold attempt_backward_differences at 1. rewrite Hup. exact Hbd. }
  assert (Hh' : attempt_step_size it' s' = attempt_step_size it s).
  { unfold attempt_step_size at 1. rewrite Hup. exact Hh. }
  unfold attempt_newton, attempt_factorization, attempt_tol.
  rewrite Hbd', Hh', HJ, Ht, Ho. reflexivity.
Qed.

(** An attempt whose corrector fails on a stale Jacobian is not accepted
    and changes neither the time nor the order, and the next attempt meets
    the same failure. *)
Lemma stuck_attempt (st : attempt_state) :
  stuck st ->
  stuck (attempt st) /\
  accepted_of (attempt st) = false /\
  time (iterand_of (attempt st)) = time (iterand_of st) /\
  order (internal_state_of (attempt st)) = order (internal_state_of st).
Proof using Hnan.
  destruct st as [[[a d] it] s].
  unfold newton_stuck, iterand_of, internal_state_of, accepted_of.
  cbn [fst snd]. intros [Hst Hfail].
  pose proof (failed_newton_rejected U self prob e it s Hnan Hfail) as Hrej.
  pose proof (scan_of_rejected U self prob e it s Hrej) as Hscan.
  rewrite maybe_step_eq. cbn [fst snd jacobian_is_up_to_date time order].
  rewrite Hrej, Hst, Hscan. cbn [andb negb].
  repeat split.
  rewrite attempt_newton_repeats with (it := it) (s := s); [exact Hfail|..];
    cbn [should_update_step_size jacobian_mat time backward_differences
         order step_size]; try reflexivity.
  - unfold attempt_adapts. rewrite Hfail, Hrej. reflexivity.
  - unfold attempt_history. rewrite Hrej. reflexivity.
Qed.

(** Without a step budget the retry loop of [step] never ends once the
    corrector fails on a stale Jacobian. *)
Lemma stuck_step_never_returns (st : step_state) :
  max_num_steps self = unbounded ->
  status st.1.1.1.1.2 = 0%Z ->
  stuck (step_entry self prob st) ->
  forall fuel : nat, step U self prob e fuel st = None.
Proof using Hnan.
  intros Hb Hs Hstuck fuel. unfold step.
  assert (Hloop : forall (f : nat) (x : attempt_state),
            maybe_step_cond x = true -> stuck x -> retry_loop f x = None).
  { induction f as [|f IH]; intros x Hc Hx; cbn [while_loop]; rewrite Hc;
      [reflexivity|].
    destruct (stuck_attempt x Hx) as (Hx' & Hrej & _).
    apply IH; [|exact Hx'].
    destruct (attempt x) as [[[a' d'] it'] s'] eqn:Hax.
    unfold maybe_step_cond. unfold accepted_of in Hrej. cbn [fst snd] in Hrej.
    rewrite Hrej. cbn [negb andb].
    assert (Hd : status d' = 0%Z).
    { change d' with (diagnostics_of (a', d', it', s')). rewrite <- Hax.
      destruct x as [[[a d] it] s]. rewrite maybe_step_eq.
      unfold diagnostics_of. cbn [fst snd status]. rewrite Hb. reflexivity. }
    rewrite Hd. reflexivity. }
  destruct st as [[[[[nt d] it] s] sv] ts].
  rewrite Hloop; [reflexivity| |exact Hstuck].
  apply (step_entry_cond self prob (nt, d, it, s, sv, ts) Hs).
Qed.

(** X6. With a step budget of [m] attempts a failing corrector uses the
    budget up: [step] returns with status -1 after the attempt made with
    the counter at [m], with the time and the order it was given. *)
Theorem newton_failure_exhausts_budget (m : Z) (fuel : nat) (nt : F)
    (d : _BDFDiagnostics) (it : _BDFIterand) (s : _BDFSolverInternalState)
    (sv : list Vec) (ts : list F) :
  max_num_steps self = at_most m ->
  (0 <= m < Int64.max_int)%Z ->
  (Z.to_nat m + 1 <= fuel)%nat ->
  status d = 0%Z -> within_budget m d it ->
  stuck (step_entry self prob (nt, d, it, s, sv, ts)) ->
  exists d' it' s',
    step U self prob e fuel (nt, d, it, s, sv, ts)
    = Some (nt, d', it', s', sv, ts) /\
    status d' = (-1)%Z /\
    num_steps it' = (m + 1)%Z /\
    time it' = time it /\
    order s' = order s.
Proof using Hnan.
  intros Hb Hm Hfuel Hs Hin Hstuck. unfold step.
  set (entry := step_entry self prob (nt, d, it, s, sv, ts)) in *.
  assert (Hentry : diagnostics_of entry = mk_BDFDiagnostics
                     (num_jacobian_evaluations (diagnostics_of entry))
                     (num_matrix_factorizations d)
                     (num_ode_fn_evaluations d) (status d) /\
                   num_steps (iterand_of entry) = num_steps it /\
                   time (iterand_of entry) = time it /\
                   internal_state_of entry = s /\
                   accepted_of entry = false).
  { unfold entry, step_entry, refresh_jacobian, clamp_to_next_time.
    repeat split. }
  destruct Hentry as (Hd0 & Hn0 & Ht0 & Hs0 & Ha0).
  destruct
    (while_loop_total maybe_step_cond (fun x => Some (attempt x))
       (fun x =>
          within_budget m (diagnostics_of x) (iterand_of x) /\
          stuck x /\ accepted_of x = false /\
          time (iterand_of x) = time it /\
          order (internal_state_of x) = order s /\
          (status (diagnostics_of x) = (-1)%Z ->
           num_steps (iterand_of x) = (m + 1)%Z))
       (fun x =>
          Z.to_nat (if (status (diagnostics_of x) =? 0)%Z
                    then m + 1 - num_steps (iterand_of x) else 0)))
    with (fuel := fuel) (x := entry)
    as ([[[a' d'] it'] s'] & Hrun & (Hin' & _ & Ha' & Ht' & Ho' & Hlast) & Hc).
  - intros x (Hx & Hstx & Hax & Htx & Hox & _) Hcx.
    assert (Hsx : status (diagnostics_of x) = 0%Z).
    { destruct x as [[[ax dx] itx] sx].
      unfold maybe_step_cond, diagnostics_of in *. cbn [fst snd] in *.
      apply andb_true_iff in Hcx. lia. }
    assert (Hnx : (0 <= num_steps (iterand_of x) <= m)%Z).
    { destruct Hx as (_ & Hnx & Hle). specialize (Hle Hsx). lia. }
    destruct (attempt_within_budget U self prob e m Hb Hm x Hnx)
      as (Hn1 & Hs1 & Hin1).
    destruct (stuck_attempt x Hstx) as (Hst1 & Ha1 & Ht1 & Ho1).
    exists (attempt x). split; [reflexivity|]. split.
    + split; [exact Hin1|]. split; [exact Hst1|]. split; [exact Ha1|].
      split; [congruence|]. split; [congruence|].
      rewrite Hs1, Hn1.
      destruct (Z.eqb_spec (num_steps (iterand_of x)) m); [lia|discriminate].
    + rewrite Hsx, Hn1. cbn [Z.eqb].
      destruct (status (diagnostics_of (attempt x)) =? 0)%Z; lia.
  - split.
    { rewrite Hd0. unfold within_budget in *. cbn [status]. rewrite Hn0.
      exact Hin. }
    split; [exact Hstuck|]. split; [exact Ha0|]. split; [exact Ht0|].
    split; [rewrite Hs0; reflexivity|].
    rewrite Hd0. cbn [status]. rewrite Hs. discriminate.
  - rewrite Hd0. cbn [status]. rewrite Hs, Hn0. cbn [Z.eqb].
    destruct Hin as (_ & Hn & _). lia.
  - rewrite Hrun. exists d', it', s'. split; [reflexivity|].
    unfold maybe_step_cond, accepted_of, diagnostics_of, iterand_of,
      internal_state_of in *. cbn [fst snd] in *.
    rewrite Ha' in Hc. cbn [negb andb] in Hc. apply Z.eqb_neq in Hc.
    assert (Hd' : status d' = (-1)%Z).
    { destruct Hin' as ([H0|H1] & _); [contradiction|exact H1]. }
    split; [exact Hd'|]. split; [exact (Hlast Hd')|].
    split; assumption.
Qed.

End NewtonStuck.

Section NewtonStuckRun.
Context {SC : Scalar} (U : bdf_util.t) (self : BDF) (prob : Problem).
Local Open Scope scalar_scope.

Local Abbreviation table := (_get_common_params_and_coefficients U self).
Local Abbreviation start := (initial_solve_state U self prob).

(** X5. Without a step budget the solver does not recover from a corrector
    that fails: the Jacobian is marked stale throughout a run and the retry
    loop never re-evaluates it, so every further attempt repeats the
    failure.  A call of [step] that meets the failure at its first attempt
    returns for no amount of fuel; and when the first attempt of a run
    meets it, with a first requested time ahead of the initial time,
    [_solve] returns for no amount of fuel. *)
Theorem newton_failure_never_returns :
  (fnan <? fone) = false ->
  max_num_steps self = unbounded ->
  (forall (e : Coefficients) (nt : F) (d : _BDFDiagnostics)
          (it : _BDFIterand) (s : _BDFSolverInternalState) (sv : list Vec)
          (ts : list F),
     status d = 0%Z ->
     newton_stuck U self prob e
       (step_entry self prob (nt, d, it, s, sv, ts)) ->
     forall fuel : nat,
       step U self prob e fuel (nt, d, it, s, sv, ts) = None) /\
  ((0 < length (solution_times prob))%nat ->
   (initial_time prob <? nth_solution_time prob 0) = true ->
   newton_stuck U self prob table
     (step_entry self prob
        (nth_solution_time prob 0, loop_diagnostics start,
         loop_iterand start, loop_internal_state start, loop_states start,
         loop_times start)) ->
   forall fuel : nat, _solve U self prob fuel = None).
Proof.
  intros Hnan Hb. split.
  - intros e nt d it s sv ts Hs Hstuck fuel.
    exact (stuck_step_never_returns U self prob e Hnan
             (nt, d, it, s, sv, ts) Hb Hs Hstuck fuel).
  - intros Hn Hahead Hstuck fuel. unfold _solve, solve_loop.
    assert (Hc : advance_to_solution_time_cond prob start = true).
    { unfold advance_to_solution_time_cond, initial_solve_state.
      cbn [status]. apply andb_true_iff. split; [|reflexivity].
      apply Nat.ltb_lt. exact Hn. }
    destruct fuel as [|f]; cbn [while_loop]; rewrite Hc; [reflexivity|].
    assert (Hadv : advance_to_solution_time U self prob table (S f) start
                   = None).
    { unfold initial_solve_state, advance_to_solution_time in *.
      unfold loop_diagnostics, loop_iterand, loop_internal_state,
        loop_states, loop_times in Hstuck. cbn [fst snd] in Hstuck.
      cbn [while_loop]. unfold step_cond at 1. cbn [time status Z.eqb].
      rewrite Hahead. cbn [andb].
      pose proof (fun H => stuck_step_never_returns U self prob table Hnan
                            _ Hb H Hstuck (S f)) as Hstep.
      rewrite Hstep by reflexivity. reflexivity. }
    rewrite Hadv. reflexivity.
Qed.

End NewtonStuckRun.

(** * The counters of a run *)

Section Counters.
Context {SC : Scalar} (U : bdf_util.t) (self : BDF) (prob : Problem)
  (m : Z).
Hypothesis Hbudget : max_num_steps self = at_most m.
Hypothesis Hm : (0 <= m < Int64.max_int)%Z.
Local Open Scope scalar_scope.

(** The counters agree: every attempt is one factorization, a call of
    [step] is at most one Jacobian evaluation and at least one attempt, and
    the steps of one size are among the attempts. *)
Local Abbreviation counted :=
  (fun (d : _BDFDiagnostics) (it : _BDFIterand)
       (_ : _BDFSolverInternalState) =>
     within_budget m d it /\
     num_matrix_factorizations d = num_steps it /\
     (0 <= num_jacobian_evaluations d <= num_steps it)%Z /\
     (0 <= num_steps_same_size it <= num_steps it)%Z).

Lemma counted_attempt (e : Coefficients) (c : Z) (st : attempt_state) :
  status (diagnostics_of st) = 0%Z ->
  within_budget m (diagnostics_of st) (iterand_of st) ->
  num_matrix_factorizations (diagnostics_of st) = num_steps (iterand_of st) ->
  (0 <= num_jacobian_evaluations (diagnostics_of st)
   <= num_steps (iterand_of st) + 1)%Z ->
  (0 <= num_steps_same_size (iterand_of st) <= num_steps (iterand_of st))%Z ->
  counted (diagnostics_of (maybe_step U self prob e st))
    (iterand_of (maybe_step U self prob e st))
    (internal_state_of (maybe_step U self prob e st)).
Proof using Hbudget Hm.
  intros Hs Hin Hf Hj Hsame.
  assert (Hn : (0 <= num_steps (iterand_of st) <= m)%Z).
  { destruct Hin as (_ & Hn & Hle). specialize (Hle Hs). lia. }
  destruct (attempt_within_budget U self prob e m Hbudget Hm st Hn)
    as (Hn1 & _ & Hin1).
  split; [exact Hin1|]. rewrite Hn1. clear Hin1 Hn1.
  destruct st as [[[a d] it] s].
  unfold diagnostics_of, iterand_of in *. cbn [fst snd] in *.
  rewrite maybe_step_eq.
  cbn [fst snd num_matrix_factorizations num_jacobian_evaluations
       num_steps_same_size].
  unfold attempt_same_size.
  assert (Hreset :
    (0 <= (if should_update_step_size it then 0 else num_steps_same_size it)
     <= num_steps it)%Z).
  { destruct (should_update_step_size it); lia. }
  split; [rewrite int64_add_1; unfold Int64.min_int; lia|].
  split; [lia|].
  destruct (attempt_accepted U self prob e it s); [|lia].
  rewrite int64_add_1; unfold Int64.min_int; lia.
Qed.

Lemma counted_first (e : Coefficients) (st : step_state) :
  status st.1.1.1.1.2 = 0%Z -> counted st.1.1.1.1.2 st.1.1.1.2 st.1.1.2 ->
  counted
    (diagnostics_of (maybe_step U self prob e (step_entry self prob st)))
    (iterand_of (maybe_step U self prob e (step_entry self prob st)))
    (internal_state_of (maybe_step U self prob e (step_entry self prob st))).
Proof using Hbudget Hm.
  destruct st as [[[[[nt d] it] s] sv] ts]. cbn [fst snd].
  intros Hs (Hin & Hf & Hj & Hsame).
  assert (Hn : (0 <= num_steps it <= m)%Z).
  { destruct Hin as (_ & Hn & Hle). specialize (Hle Hs). lia. }
  apply counted_attempt;
    unfold step_entry, refresh_jacobian, clamp_to_next_time, diagnostics_of,
      iterand_of;
    cbn [fst snd status num_steps num_matrix_factorizations
         num_jacobian_evaluations num_steps_same_size
         jacobian_is_up_to_date];
    try assumption.
  destruct (_evaluate_jacobian_lazily self && jacobian_is_up_to_date it);
    [lia|].
  rewrite int64_add_1; unfold Int64.min_int; lia.
Qed.

Lemma counted_next (e : Coefficients) (st : attempt_state) :
  maybe_step_cond st = true ->
  counted (diagnostics_of st) (iterand_of st) (internal_state_of st) ->
  counted (diagnostics_of (maybe_step U self prob e st))
    (iterand_of (maybe_step U self prob e st))
    (internal_state_of (maybe_step U self prob e st)).
Proof using Hbudget Hm.
  intros Hc (Hin & Hf & Hj & Hsame).
  apply counted_attempt; try assumption; [|lia].
  destruct st as [[[a d] it] s].
  unfold maybe_step_cond, diagnostics_of in *. cbn [fst snd] in *.
  apply andb_true_iff in Hc. lia.
Qed.

(** X7. Under a step budget of [m] attempts the counters [_solve] returns
    agree with one another: [num_matrix_factorizations] is the number of
    attempts [num_steps], which is at most [m + 1]; there is at most one
    Jacobian evaluation for every attempt; and [num_steps_same_size] lies
    between 0 and the number of attempts. *)
Theorem counters_agree (fuel : nat) :
  (Z.to_nat m + 1 <= fuel)%nat ->
  (length (solution_times prob) <= fuel)%nat ->
  exists (final : solve_state) (res : Results),
    solve_loop U self prob fuel = Some final /\
    _solve U self prob fuel = Some res /\
    diagnostics res = loop_diagnostics final /\
    num_matrix_factorizations (diagnostics res)
    = num_steps (loop_iterand final) /\
    (0 <= num_jacobian_evaluations (diagnostics res)
     <= num_matrix_factorizations (diagnostics res))%Z /\
    (num_matrix_factorizations (diagnostics res) <= m + 1)%Z /\
    (0 <= num_steps_same_size (loop_iterand final)
     <= num_steps (loop_iterand final))%Z.
Proof using Hbudget Hm.
  intros Hfuel Htimes.
  destruct (solve_loop_total U self prob m fuel Hbudget Hm Hfuel Htimes)
    as (final & Hrun & _).
  exists final,
    (mk_Results (loop_times final) (loop_states final)
       (loop_diagnostics final) (loop_internal_state final)).
  split; [exact Hrun|]. split.
  { unfold _solve. rewrite Hrun.
    destruct final as [[[[[k d] it] s] sv] ts]. reflexivity. }
  split; [reflexivity|]. cbn [diagnostics].
  apply (solve_loop_keeps U self prob counted) in Hrun.
  - destruct Hrun as (((_ & Hn & _) & Hf & Hj & Hsame) & _).
    rewrite Hf. repeat split; lia.
  - apply counted_first.
  - apply counted_next.
  - cbn. unfold within_budget. cbn. lia.
Qed.

End Counters.

(** * The first attempt of a step *)

Section FirstAttempt.
Context {SC : Scalar} (U : bdf_util.t) (self : BDF) (prob : Problem).
Hypothesis Hone : forall x : F, (x * fone)%F = x.
Local Open Scope scalar_scope.

Local Abbreviation table := (_get_common_params_and_coefficients U self).
Local Abbreviation consistent :=
  (fun (_ : _BDFDiagnostics) (it : _BDFIterand)
       (s : _BDFSolverInternalState) => pending_step_consistent it s).

(** An attempt that leaves no step-size update pending leaves the step size
    it was made with as the pending one. *)
Lemma attempt_consistent (e : Coefficients) (st : attempt_state) :
  pending_step_consistent (iterand_of (maybe_step U self prob e st))
    (internal_state_of (maybe_step U self prob e st)).
Proof using Hone.
  destruct st as [[[a d] it] s]. rewrite maybe_step_eq.
  unfold pending_step_consistent, iterand_of, internal_state_of.
  cbn [fst snd should_update_step_size new_step_size step_size].
  intros Hflag. apply orb_false_iff in Hflag. destruct Hflag as [Hflag ->].
  apply orb_false_iff in Hflag. destruct Hflag as [-> ->]. apply Hone.
Qed.

(** X8. When no step-size update is pending the pending step size is the
    step size in use: every attempt leaves it so and so does every run of
    [_solve].  The cut of [step] therefore governs the step that is taken:
    the first attempt of a call of [step] is made with a step size that
    does not exceed the distance to the target time. *)
Theorem first_attempt_stays_within_target :
  (forall (e : Coefficients) (st : attempt_state),
     pending_step_consistent (iterand_of (maybe_step U self prob e st))
       (internal_state_of (maybe_step U self prob e st))) /\
  (forall (fuel : nat) (final : solve_state),
     solve_loop U self prob fuel = Some final ->
     pending_step_consistent (loop_iterand final)
       (loop_internal_state final)) /\
  (forall (nt : F) (d : _BDFDiagnostics) (it : _BDFIterand)
          (s : _BDFSolverInternalState) (sv : list Vec) (ts : list F),
     pending_step_consistent it s ->
     (nt - time it <? nt - time it) = false ->
     let it0 := iterand_of (step_entry self prob (nt, d, it, s, sv, ts)) in
     (attempt_step_size it0 s >? nt - time it) = false).
Proof using Hone.
  split; [exact attempt_consistent|]. split.
  - intros fuel final Hrun.
    apply (solve_loop_keeps U self prob consistent) in Hrun.
    + exact (proj1 Hrun).
    + intros st _ _. apply attempt_consistent.
    + intros st _ _. apply attempt_consistent.
    + cbv zeta. intros _. reflexivity.
  - intros nt d it s sv ts Hcons Hirr. cbv zeta.
    unfold step_entry, refresh_jacobian, clamp_to_next_time, iterand_of,
      attempt_step_size.
    cbn [fst snd should_update_step_size new_step_size time].
    destruct (flt (nt - time it) (new_step_size it)) eqn:Hover; cbn [orb].
    + exact Hirr.
    + destruct (should_update_step_size it) eqn:Hflag; [exact Hover|].
      rewrite <- (Hcons Hflag). exact Hover.
Qed.

End FirstAttempt.

(** On the rationals a product with one is the number itself. *)
Lemma exact_mul_one (x : Q) : Qmult x (1 # 1) = x.
Proof.
  destruct x as [a b]. unfold Qmult. cbn [Qnum Qden].
  rewrite Z.mul_1_r, Pos.mul_1_r. reflexivity.
Qed.

(** * Requested times that ask for no step *)

Section NoStep.
Context {SC : Scalar} (U : bdf_util.t) (self : BDF) (prob : Problem).
Local Open Scope scalar_scope.

(** X10. A requested time that is not ahead of the solver time asks for no
    step: [advance_to_solution_time] returns at once, for any fuel, with
    the records unchanged, and writes the slot with the requested time and
    the current state estimate, also when the requested time lies behind
    the solver time. *)
Theorem advance_without_step (e : Coefficients) (fuel : nat) (n : nat)
    (d : _BDFDiagnostics) (it : _BDFIterand) (s : _BDFSolverInternalState)
    (sv : list Vec) (ts : list F) :
  (time it <? nth_solution_time prob n) = false ->
  advance_to_solution_time U self prob e fuel (n, d, it, s, sv, ts)
  = Some (S n, d, it, s,
          <[n := jnp_index [] (backward_differences s) 0]> sv,
          <[n := nth_solution_time prob n]> ts).
Proof.
  intros Hreached. unfold advance_to_solution_time.
  assert (Hc : step_cond (nth_solution_time prob n, d, it, s, sv, ts)
               = false).
  { unfold step_cond. rewrite Hreached. reflexivity. }
  destruct fuel as [|f]; cbn [while_loop]; rewrite Hc; reflexivity.
Qed.

End NoStep.

(** * The theorems on the computed example *)

Section Computed.
Import Float64 Example.

Local Abbreviation first_state :=
  ((false, diagnostics0, iterand0, state0) : attempt_state).

(** C2 fails as stated: with [max_num_steps = 0] the first attempt finds
    the budget used up, and yet it factorizes, runs the corrector, counts
    the attempt and even takes the step. *)
Lemma exhausted_budget_attempt_does_work :
  let st' :=
    maybe_step converging (config (at_most 0)) problem (table converging)
      first_state in
  budget_reached (num_steps iterand0) (at_most 0) = true /\
  status (diagnostics_of st') = (-1)%Z /\
  num_matrix_factorizations (diagnostics_of st') <>
    num_matrix_factorizations diagnostics0 /\
  num_ode_fn_evaluations (diagnostics_of st') <>
    num_ode_fn_evaluations diagnostics0 /\
  num_steps (iterand_of st') <> num_steps iterand0 /\
  accepted_of st' = true /\
  time (iterand_of st') = PrimFloat.one.
Proof.
  vm_compute. repeat split; discriminate.
Qed.

Lemma exhausted_budget_attempt_witness :
  let st' :=
    maybe_step stalled (config (at_most 0)) problem (table stalled)
      first_state in
  status (diagnostics_of st') = (-1)%Z /\
  num_steps (iterand_of st') = 1%Z.
Proof.
  pose proof (exhausted_budget_attempt stalled (config (at_most 0)) problem
                (table stalled) first_state eq_refl) as H.
  cbv zeta in H. split; [exact (proj1 H)|].
  destruct H as (_ & _ & _ & _ & _ & H). rewrite H. reflexivity.
Defined.

Lemma newton_failure_policy_witness :
  let st' :=
    maybe_step stalled (config unbounded) problem (table stalled)
      first_state in
  accepted_of st' = false /\
  order (internal_state_of st') = 1%Z /\
  should_update_jacobian (iterand_of st') = true /\
  should_update_step_size (iterand_of st') = false.
Proof.
  pose proof (newton_failure_policy stalled (config unbounded) problem
                (table stalled) first_state eq_refl eq_refl) as H.
  cbv zeta in H. destruct H as (Ha & Ho & _ & Hj & Hs & _).
  split; [exact Ha|]. split; [exact Ho|]. split; [exact Hj|exact Hs].
Defined.

(** The other branch of C5, with the Jacobian marked up to date: the step
    size 1 is halved. *)
Example newton_failure_halves_step :
  let st' :=
    maybe_step stalled (config unbounded) problem (table stalled)
      (false, diagnostics0,
       mk_BDFIterand [[PrimFloat.zero]] true PrimFloat.one 0 0 false false
         PrimFloat.zero [[PrimFloat.zero]] [[PrimFloat.zero]],
       state0) in
  new_step_size (iterand_of st') = ratio 1 2 /\
  should_update_step_size (iterand_of st') = true /\
  order (internal_state_of st') = 1%Z.
Proof.
  vm_compute. repeat split.
Qed.

Lemma rejected_attempt_keeps_time_and_order_witness :
  let st' :=
    maybe_step stalled (config unbounded) problem (table stalled)
      first_state in
  time (iterand_of st') = PrimFloat.zero /\
  order (internal_state_of st') = 1%Z.
Proof.
  exact (rejected_attempt_keeps_time_and_order stalled (config unbounded)
           problem (table stalled) first_state eq_refl).
Defined.

Lemma lazy_jacobian_evaluation_witness :
  exists (d' : _BDFDiagnostics) (it' : _BDFIterand)
         (s' : _BDFSolverInternalState),
    step converging (config unbounded) problem (table converging) 1
      (ratio 1 1, diagnostics0, iterand0, state0, [], [])
    = Some (ratio 1 1, d', it', s', [], []) /\
    jacobian_mat it' = [[PrimFloat.zero]] /\
    num_jacobian_evaluations d' = 1%Z.
Proof.
  eexists. eexists. eexists. split; [vm_compute; reflexivity|].
  refine (proj2 (lazy_jacobian_evaluation converging (config unbounded)
                   problem (table converging) 1 (ratio 1 1) diagnostics0
                   iterand0 state0 [] [] _) _ _ _ _ _ _ _).
  - vm_compute. split; [discriminate|reflexivity].
  - vm_compute. reflexivity.
Defined.

(** C3 fails as stated, in both of its parts.
    The bounds: the target time 1/16 lies nearer than the pending step size
    1, so the step driver cuts the pending step size to 1/16; the attempt
    installs it, is accepted, and its step size is below
    [min_step_size_factor = 0.1] times the step size 1 before it.
    Strict positivity: with a corrector whose every attempt is rejected for
    an error ratio of 4, each attempt multiplies the step size by 0.45,
    from the first step size 1.  Attempt 933 is made with the smallest
    positive number of binary64 and leaves the pending step size 0, attempt
    934 is made with the step size 0, and under a budget of 940 attempts
    [_solve] returns with the step size 0 in its internal state. *)
Lemma step_size_claim_fails :
  (let entry :=
     step_entry (config unbounded) problem
       (ratio 1 16, diagnostics0, iterand0, state0, [], []) in
   let st' :=
     maybe_step converging (config unbounded) problem (table converging)
       entry in
   PrimFloat.ltb PrimFloat.zero (min_step_size_factor (config unbounded))
     = true /\
   PrimFloat.ltb (min_step_size_factor (config unbounded)) PrimFloat.one
     = true /\
   PrimFloat.ltb PrimFloat.one (max_step_size_factor (config unbounded))
     = true /\
   should_update_step_size (iterand_of entry) = true /\
   accepted_of st' = true /\
   step_size state0 = PrimFloat.one /\
   step_size (internal_state_of st') = ratio 1 16 /\
   PrimFloat.ltb (step_size (internal_state_of st'))
     (PrimFloat.mul (min_step_size_factor (config unbounded))
        (step_size state0)) = true) /\
  (let after n :=
     Nat.iter n
       (maybe_step rejecting (config unbounded) problem (table rejecting))
       first_state in
   step_size (_initialize_solver_internal_state rejecting (config unbounded)
                problem) = PrimFloat.one /\
   step_size (internal_state_of (after 933%nat))
   = PrimFloat.next_up PrimFloat.zero /\
   PrimFloat.ltb PrimFloat.zero (step_size (internal_state_of (after 933%nat)))
   = true /\
   accepted_of (after 933%nat) = false /\
   should_update_step_size (iterand_of (after 933%nat)) = true /\
   new_step_size (iterand_of (after 933%nat)) = PrimFloat.zero /\
   maybe_step_cond (after 933%nat) = true /\
   step_size (internal_state_of (after 934%nat)) = PrimFloat.zero /\
   exists res : Results,
     _solve rejecting (config (at_most 940)) problem 1000%nat = Some res /\
     status (diagnostics res) = (-1)%Z /\
     step_size (solver_internal_state res) = PrimFloat.zero /\
     PrimFloat.ltb PrimFloat.zero (step_size (solver_internal_state res))
     = false).
Proof.
  split.
  - vm_compute. repeat split.
  - cbv zeta. do 8 (split; [vm_compute; reflexivity|]).
    eexists. split; [vm_compute; reflexivity|].
    vm_compute. repeat split.
Qed.

(** The laws of [MonotoneScalar] at the edges of binary64, where a NaN, an
    infinity, a signed zero or an underflow could break a law: they hold at
    every triple of [edge_values], and the strict positivity of a product of
    positive numbers does not. *)
Example binary64_laws_at_edge_values :
  at_edge_values
    (fun x y z =>
       implb (PrimFloat.ltb x y && PrimFloat.ltb y z) (PrimFloat.ltb x z))
  = true /\
  at_edge_values
    (fun s x y =>
       implb (negb (PrimFloat.ltb s PrimFloat.zero) &&
              negb (PrimFloat.ltb y x))
         (negb (PrimFloat.ltb (PrimFloat.mul s y) (PrimFloat.mul s x))))
  = true /\
  at_edge_values
    (fun x y _ =>
       implb (negb (PrimFloat.ltb x PrimFloat.zero) &&
              negb (PrimFloat.ltb y PrimFloat.zero))
         (negb (PrimFloat.ltb (PrimFloat.mul x y) PrimFloat.zero)))
  = true /\
  at_edge_values
    (fun x y _ =>
       implb (PrimFloat.ltb x y)
         (negb (PrimFloat.ltb (PrimFloat.sub y x) PrimFloat.zero)))
  = true /\
  at_edge_values
    (fun x y _ =>
       implb (PrimFloat.ltb PrimFloat.zero x && PrimFloat.ltb PrimFloat.zero y)
         (PrimFloat.ltb PrimFloat.zero (PrimFloat.mul x y)))
  = false.
Proof.
  vm_compute. repeat split.
Qed.

Lemma step_size_bounds_witness :
  (let st' :=
     maybe_step rejecting (config unbounded) problem (table rejecting)
       first_state in
   let factor :=
     clamp
       (PrimFloat.mul (ratio 9 10)
          (inverse_sqrt (ratio 4 1)
             (PrimFloat.div (float_of_int (-1)) (float_of_int (1 + 1)))))
       (ratio 1 10) (ratio 10 1) in
   accepted_of st' = false /\
   should_update_step_size (iterand_of st') = true /\
   new_step_size (iterand_of st') = PrimFloat.mul PrimFloat.one factor /\
   PrimFloat.ltb factor (ratio 1 10) = false /\
   PrimFloat.ltb (ratio 10 1) factor = false) /\
  (let st' :=
     maybe_step ExactExample.collaborator ExactExample.config
       ExactExample.problem ExactExample.table ExactExample.fifth_state in
   accepted_of st' = true /\
   should_update_step_size (iterand_of st') = true /\
   Exact.lt (new_step_size (iterand_of st')) ((1 # 1) * (1 # 10))%Q = false /\
   Exact.lt ((1 # 1) * (10 # 1))%Q (new_step_size (iterand_of st')) = false /\
   Exact.lt (new_step_size (iterand_of st')) (0 # 1)%Q = false).
Proof.
  split.
  - pose proof (step_size_bounds rejecting (config unbounded) problem
                  (table rejecting) inverse_sqrt first_state eq_refl eq_refl
                  eq_refl eq_refl eq_refl) as H.
    cbv zeta in H. destruct H as [H _].
    destruct (H (or_intror eq_refl) eq_refl) as (_ & Hp & Hlo & Hhi & _).
    cbv zeta. split; [reflexivity|]. split; [reflexivity|].
    split; [exact Hp|]. split; [exact Hlo|exact Hhi].
  - pose proof (step_size_bounds ExactExample.collaborator
                  ExactExample.config ExactExample.problem
                  ExactExample.table ExactExample.power
                  ExactExample.fifth_state eq_refl eq_refl eq_refl eq_refl
                  eq_refl) as H.
    cbv zeta in H. destruct H as [Hb Hs].
    destruct (Hb (or_introl eq_refl) eq_refl) as (_ & _ & _ & _ & Hb').
    destruct (Hb' exact_monotone eq_refl) as [Hlow Hhigh].
    destruct (Hs exact_monotone eq_refl eq_refl eq_refl eq_refl eq_refl)
      as (_ & Hsign & _).
    cbv zeta. split; [reflexivity|]. split; [reflexivity|].
    split; [exact Hlow|]. split; [exact Hhigh|exact Hsign].
Defined.

(** C4 fails as stated: with [max_num_steps = 1] and a corrector that
    does not converge, the budget runs out while the loop advances to the
    first output time 1.  No slot was filled before, the solver time is
    still 0, and yet slot 0 of [times] holds 1, not its initial zero. *)
Lemma unreached_slot_is_written :
  exists final : solve_state,
    solve_loop stalled (config (at_most 1)) problem 5 = Some final /\
    _solve stalled (config (at_most 1)) problem 5
    = Some (mk_Results (loop_times final) (loop_states final)
              (loop_diagnostics final) (loop_internal_state final)) /\
    status (loop_diagnostics final) = (-1)%Z /\
    loop_index final = 1%nat /\
    time (loop_iterand final) = PrimFloat.zero /\
    PrimFloat.ltb (time (loop_iterand final)) (nth_solution_time problem 0)
    = true /\
    loop_times final !! 0%nat = Some PrimFloat.one /\
    PrimFloat.ltb PrimFloat.zero PrimFloat.one = true.
Proof.
  eexists. split; [vm_compute; reflexivity|].
  vm_compute. repeat split.
Qed.

Lemma budget_exhaustion_outputs_witness :
  exists res : Results,
    _solve stalled (config (at_most 1)) problem 5 = Some res /\
    status (diagnostics res) = (-1)%Z /\
    times res !! 1%nat = Some PrimFloat.zero /\
    states res !! 1%nat = Some [PrimFloat.zero].
Proof.
  destruct (budget_exhaustion_outputs stalled (config (at_most 1)) problem 1
              5 eq_refl)
    as (final & res & Hloop & Hres & _ & _ & _ & Hout).
  - vm_compute. split; [discriminate|reflexivity].
  - vm_compute. lia.
  - vm_compute. lia.
  - exists res. split; [exact Hres|].
    assert (Hfinal : final = stalled_final).
    { assert (Hrun : solve_loop stalled (config (at_most 1)) problem 5 =
                Some stalled_final) by (vm_compute; reflexivity).
      rewrite Hrun in Hloop. injection Hloop as <-. reflexivity. }
    assert (Hs : status (diagnostics res) = (-1)%Z).
    { unfold _solve in Hres. rewrite Hloop, Hfinal in Hres.
      injection Hres as <-. reflexivity. }
    split; [exact Hs|].
    destruct (Hout Hs) as (_ & _ & _ & Hzero).
    apply (Hzero 1%nat). rewrite Hfinal. vm_compute. lia.
Defined.

Lemma every_attempt_is_counted_witness :
  num_steps
    (iterand_of
       (maybe_step stalled (config (at_most 1)) problem (table stalled)
          first_state)) = 1%Z /\
  exists final : solve_state,
    solve_loop stalled (config (at_most 1)) problem 5 = Some final /\
    (0 <= num_steps (loop_iterand final) <= 1 + 1)%Z.
Proof.
  destruct (every_attempt_is_counted stalled (config (at_most 1)) problem
              (table stalled)) as (Hone & _ & _ & Hrun).
  split.
  - apply (Hone first_state). vm_compute. split; [discriminate|reflexivity].
  - apply (Hrun 1%Z 5%nat eq_refl).
    + vm_compute. split; [discriminate|reflexivity].
    + vm_compute. lia.
    + vm_compute. lia.
Defined.

Lemma coefficient_table_witness :
  (_get_coefficients converging (bdf_coefficients (config unbounded))).1
    !! 2%nat
  = Some (PrimFloat.div 1
            (PrimFloat.mul (PrimFloat.sub 1 (ratio (-1) 9)) (ratio 3 2))) /\
  (_get_coefficients converging (bdf_coefficients (config unbounded))).2
    !! 2%nat
  = Some (PrimFloat.add (PrimFloat.mul (ratio (-1) 9) (ratio 3 2))
            (PrimFloat.div 1 (Float64.float_of_int 3))).
Proof.
  destruct (coefficient_table converging
              (bdf_coefficients (config unbounded)) 2 (ratio (-1) 9)
              (ratio 3 2) eq_refl eq_refl eq_refl ltac:(lia))
    as (Hn & He & _).
  split; [exact Hn|exact He].
Defined.

(** C9 fails as stated in its bound: with [max_num_steps = 1] the run
    makes two attempts, one more than the budget; both are accepted and
    both output times are reached, the second by the attempt that reports
    the budget used up. *)
Lemma budget_of_one_allows_two_attempts :
  exists final : solve_state,
    solve_loop converging (config (at_most 1)) problem 5 = Some final /\
    max_num_steps (config (at_most 1)) = at_most 1 /\
    num_steps (loop_iterand final) = 2%Z /\
    (1 < num_steps (loop_iterand final))%Z /\
    status (loop_diagnostics final) = (-1)%Z /\
    time (loop_iterand final) = ratio 2 1 /\
    loop_times final = [ratio 1 1; ratio 2 1].
Proof.
  eexists. split; [vm_compute; reflexivity|].
  vm_compute. repeat split.
Qed.

(** The scan of C1 on the rationals.  At order 2 with the error ratio 1/4:
    the proposal for order 1 reads 1/8 and is adopted, and the proposal for
    order 3 reads 1/16, strictly lower, and overrides it. *)
Example order_scan_later_offset_overrides :
  order
    (internal_state_of
       (maybe_step ExactExample.reading ExactExample.config
          ExactExample.problem ExactExample.table
          (ExactExample.second_order_state (1 # 8) (1 # 16)))) = 3%Z.
Proof.
  vm_compute. reflexivity.
Qed.

(** With both proposals at 1/8 the tie keeps the incumbent: order 1, the
    first of the two to be adopted, though order 3 does as well. *)
Example order_scan_tie_keeps_first_adopted :
  order
    (internal_state_of
       (maybe_step ExactExample.reading ExactExample.config
          ExactExample.problem ExactExample.table
          (ExactExample.second_order_state (1 # 8) (1 # 8)))) = 1%Z.
Proof.
  vm_compute. reflexivity.
Qed.

(** With all three error ratios at 1/4 no proposal is strictly lower, and
    the order stays 1. *)
Example order_scan_keeps_incumbent_on_ties :
  let st' :=
    maybe_step ExactExample.collaborator ExactExample.config
      ExactExample.problem ExactExample.table ExactExample.fifth_state in
  attempt_adapts ExactExample.collaborator ExactExample.config
    ExactExample.problem ExactExample.table
    (iterand_of ExactExample.fifth_state)
    (internal_state_of ExactExample.fifth_state) = true /\
  order (internal_state_of st') = 1%Z.
Proof.
  vm_compute. split; reflexivity.
Qed.

(** The facts of a whole run on the computed example. *)

Lemma order_stays_in_range_witness :
  exists res : Results,
    _solve converging (config (at_most 5)) problem 5 = Some res /\
    (1 <= order (solver_internal_state res) <= 5)%Z.
Proof.
  eexists. split; [vm_compute; reflexivity|].
  refine (proj2 (order_stays_in_range converging (config (at_most 5)) problem
                   _) 5%nat _ _).
  - vm_compute. discriminate.
  - vm_compute. reflexivity.
Defined.

Lemma status_is_zero_or_minus_one_witness :
  exists res : Results,
    _solve converging (config unbounded) problem 5 = Some res /\
    status (diagnostics res) = 0%Z.
Proof.
  eexists. split; [vm_compute; reflexivity|].
  refine (proj2 (status_is_zero_or_minus_one converging (config unbounded)
                   problem 5 _ _) eq_refl).
  vm_compute. reflexivity.
Defined.

Lemma recorded_times_are_requested_witness :
  exists res : Results,
    _solve converging (config unbounded) problem 5 = Some res /\
    times res = solution_times problem.
Proof.
  eexists. split; [vm_compute; reflexivity|].
  refine (proj2 (proj2 (recorded_times_are_requested converging
                          (config unbounded) problem 5 _ _)) _).
  - vm_compute. reflexivity.
  - reflexivity.
Defined.

Lemma lazy_mode_is_inert_witness :
  _solve converging (with_lazy (config unbounded) true) problem 5
  = _solve converging (config unbounded) problem 5.
Proof.
  exact (proj1 (proj2 (lazy_mode_is_inert converging (config unbounded)
                         problem true 5))).
Defined.

Lemma newton_failure_never_returns_witness :
  _solve stalled (config unbounded) problem 7 = None.
Proof.
  refine (proj2 (newton_failure_never_returns stalled (config unbounded)
                   problem eq_refl eq_refl) _ _ _ 7%nat).
  - vm_compute. lia.
  - vm_compute. reflexivity.
  - split; vm_compute; reflexivity.
Defined.

Lemma newton_failure_exhausts_budget_witness :
  exists d' it' s',
    step stalled (config (at_most 1)) problem (table stalled) 2
      (ratio 1 1, diagnostics0, iterand0, state0, [], [])
    = Some (ratio 1 1, d', it', s', [], []) /\
    status d' = (-1)%Z /\ num_steps it' = 2%Z.
Proof.
  destruct (newton_failure_exhausts_budget stalled (config (at_most 1))
              problem (table stalled) eq_refl 1 2 (ratio 1 1) diagnostics0
              iterand0 state0 [] [] eq_refl)
    as (d' & it' & s' & Hrun & Hs & Hn & _).
  - vm_compute. split; [discriminate|reflexivity].
  - vm_compute. lia.
  - reflexivity.
  - unfold within_budget. vm_compute. repeat split; try discriminate.
    left; reflexivity.
  - split; vm_compute; reflexivity.
  - exists d', it', s'. split; [exact Hrun|]. split; [exact Hs|exact Hn].
Defined.

Lemma counters_agree_witness :
  exists res : Results,
    _solve converging (config (at_most 5)) problem 5 = Some res /\
    (0 <= num_jacobian_evaluations (diagnostics res)
     <= num_matrix_factorizations (diagnostics res))%Z /\
    (num_matrix_factorizations (diagnostics res) <= 5 + 1)%Z.
Proof.
  destruct (counters_agree converging (config (at_most 5)) problem 5 eq_refl)
    with (fuel := 6%nat)
    as (final & res & _ & Hres & _ & _ & Hj & Hf & _).
  - vm_compute. split; [discriminate|reflexivity].
  - vm_compute. lia.
  - vm_compute. lia.
  - exists res. split; [|split; assumption].
    assert (Hsame : _solve converging (config (at_most 5)) problem 5
                    = _solve converging (config (at_most 5)) problem 6)
      by (vm_compute; reflexivity).
    rewrite Hsame. exact Hres.
Defined.

Lemma first_attempt_stays_within_target_witness :
  let it0 :=
    iterand_of
      (step_entry ExactExample.config ExactExample.problem
         ((11 # 2)%Q, diagnostics_of ExactExample.fifth_state,
          iterand_of ExactExample.fifth_state,
          internal_state_of ExactExample.fifth_state, [], [])) in
  Exact.lt ((11 # 2) - (5 # 1))%Q
    (attempt_step_size it0 (internal_state_of ExactExample.fifth_state))
  = false.
Proof.
  refine (proj2 (proj2 (first_attempt_stays_within_target
                          ExactExample.collaborator ExactExample.config
                          ExactExample.problem exact_mul_one))
            (11 # 2)%Q _ _ _ [] [] _ _).
  - intros _. reflexivity.
  - reflexivity.
Defined.

Lemma advance_without_step_witness :
  advance_to_solution_time converging (config unbounded) problem
    (table converging) 0
    (0%nat, diagnostics0, iterand_at_three, state0,
     [[PrimFloat.zero]; [PrimFloat.zero]], [PrimFloat.zero; PrimFloat.zero])
  = Some (1%nat, diagnostics0, iterand_at_three, state0,
          [[PrimFloat.one]; [PrimFloat.zero]], [ratio 1 1; PrimFloat.zero]).
Proof.
  refine (eq_trans
            (advance_without_step converging (config unbounded) problem
               (table converging) 0 0 diagnostics0 iterand_at_three state0
               _ _ eq_refl) _).
  vm_compute. reflexivity.
Defined.

End Computed.
